(** * A shallow embedding of the weapon analytics core of BF6_TTK
    (js/data.js and the utility module of the repository), with the
    properties of its specification. *)

From Stdlib Require Import QArith Qround Qpower ZArith String Ascii List Bool Lia.
From Stdlib Require Import Sorting.Permutation Sorting.Sorted Lqa OrdersEx.
From Stdlib Require Floats.
Import ListNotations.

Open Scope Q_scope.

(** ** JavaScript numbers

    A JavaScript number is either finite, [Infinity], [-Infinity] or [NaN].
    Finite values are idealised as exact rationals kept in reduced form
    (so that Leibniz equality is numeric equality); IEEE rounding, overflow
    and the sign of zero are not modelled. *)
Inductive num : Type :=
| Fin (q : Q)
| PInf
| NInf
| NaN.

Definition fin (q : Q) : num := Fin (Qred q).

Definition qpos (a : Q) : bool := negb (Qle_bool a 0).
Definition qneg (a : Q) : bool := negb (Qle_bool 0 a).
Definition qlt (a b : Q) : bool := negb (Qle_bool b a).

Definition nneg (x : num) : num :=
  match x with
  | Fin a => fin (- a)
  | PInf => NInf
  | NInf => PInf
  | NaN => NaN
  end.

(** [x + y] *)
Definition nadd (x y : num) : num :=
  match x, y with
  | Fin a, Fin b => fin (a + b)
  | NaN, _ | _, NaN => NaN
  | PInf, NInf | NInf, PInf => NaN
  | PInf, _ | _, PInf => PInf
  | NInf, _ | _, NInf => NInf
  end.

(** [x - y] *)
Definition nsub (x y : num) : num := nadd x (nneg y).

(** [x * y] *)
Definition nmul (x y : num) : num :=
  match x, y with
  | Fin a, Fin b => fin (a * b)
  | NaN, _ | _, NaN => NaN
  | Fin a, i | i, Fin a =>
      if Qeq_bool a 0 then NaN else if qpos a then i else nneg i
  | PInf, PInf | NInf, NInf => PInf
  | _, _ => NInf
  end.

(** [x / y] *)
Definition ndiv (x y : num) : num :=
  match x, y with
  | Fin a, Fin b =>
      if Qeq_bool b 0 then
        (if Qeq_bool a 0 then NaN else if qpos a then PInf else NInf)
      else fin (a / b)
  | NaN, _ | _, NaN => NaN
  | Fin _, _ => Fin 0
  | i, Fin b => if qneg b then nneg i else i
  | _, _ => NaN
  end.

(** [Math.ceil] *)
Definition nceil (x : num) : num :=
  match x with
  | Fin a => fin (inject_Z (Qceiling a))
  | _ => x
  end.

(** [Math.round]: rounds halves towards +Infinity. *)
Definition nround (x : num) : num :=
  match x with
  | Fin a => fin (inject_Z (Qfloor (a + (1 # 2))))
  | _ => x
  end.

(** [x < y] *)
Definition nlt (x y : num) : bool :=
  match x, y with
  | NaN, _ | _, NaN => false
  | Fin a, Fin b => qlt a b
  | NInf, NInf => false
  | NInf, _ => true
  | PInf, _ => false
  | _, PInf => true
  | _, NInf => false
  end.

(** [x <= y] *)
Definition nle (x y : num) : bool :=
  match x, y with
  | NaN, _ | _, NaN => false
  | _, _ => negb (nlt y x)
  end.

(** [x === y] *)
Definition nstrict_eq (x y : num) : bool :=
  match x, y with
  | Fin a, Fin b => Qeq_bool a b
  | PInf, PInf | NInf, NInf => true
  | _, _ => false
  end.

(** Truthiness of a number ([0] and [NaN] are falsy). *)
Definition ntruthy (x : num) : bool :=
  match x with
  | Fin a => negb (Qeq_bool a 0)
  | NaN => false
  | _ => true
  end.

Definition nisNaN (x : num) : bool :=
  match x with NaN => true | _ => false end.

(** Two-argument [Math.max] and [Math.min]. *)
Definition nmax2 (x y : num) : num :=
  match x, y with
  | NaN, _ | _, NaN => NaN
  | _, _ => if nlt x y then y else x
  end.

Definition nmin2 (x y : num) : num :=
  match x, y with
  | NaN, _ | _, NaN => NaN
  | _, _ => if nlt y x then y else x
  end.

(** [Math.min(...xs)] and [Math.max(...xs)]; the empty call gives
    [Infinity] and [-Infinity]. *)
Definition math_min (xs : list num) : num := fold_left nmin2 xs PInf.
Definition math_max (xs : list num) : num := fold_left nmax2 xs NInf.

(** A function argument that holds a number or [null]/[undefined]. *)
Definition opt_truthy (v : option num) : bool :=
  match v with Some x => ntruthy x | None => false end.

(** ** Metric calculator (utility module, lines 7-102) *)

Definition PLAYER_HEALTH : num := Fin 100.

Definition RANGES : list string := ["10M"; "20M"; "35M"; "50M"; "70M"]%string.

(** [getRangeAccuracyMultiplier] *)
Definition getRangeAccuracyMultiplier (range : string) : num :=
  if String.eqb range "10M" then Fin 1
  else if String.eqb range "20M" then Fin (19 # 20)
  else if String.eqb range "35M" then Fin (9 # 10)
  else if String.eqb range "50M" then Fin (17 # 20)
  else if String.eqb range "70M" then Fin (4 # 5)
  else Fin 1.

(** [Math.round(x * 10) / 10] *)
Definition round1 (x : num) : num := ndiv (nround (nmul x (Fin 10))) (Fin 10).

(** [finalTTK === 0 ? 1 : finalTTK] *)
Definition zero_floor (x : num) : num := if nstrict_eq x (Fin 0) then Fin 1 else x.

(** The shared guard [!damage || !rpm || damage <= 0 || rpm <= 0]; [null]
    and [undefined] are falsy, so they are caught by the first tests. *)
Definition ttk_guard (damage rpm : option num) : option (num * num) :=
  match damage, rpm with
  | Some d, Some r =>
      if negb (ntruthy d) || negb (ntruthy r) || nle d (Fin 0) || nle r (Fin 0)
      then None else Some (d, r)
  | _, _ => None
  end.

(** [adsTime || 0] *)
Definition ads_or_zero (adsTime : option num) : num :=
  match adsTime with
  | Some a => if ntruthy a then a else Fin 0
  | None => Fin 0
  end.

(** [calculateTTK(damage, rpm, adsTime = 0)]; [None] is [null]. *)
Definition calculateTTK (damage rpm adsTime : option num) : option num :=
  match ttk_guard damage rpm with
  | None => None
  | Some (d, r) =>
      let shotsToKill := nceil (ndiv PLAYER_HEALTH d) in
      let timeBetweenShots := ndiv (Fin 60000) r in
      let ttk := nadd (nmul (nsub shotsToKill (Fin 1)) timeBetweenShots)
                      (ads_or_zero adsTime) in
      let finalTTK := round1 ttk in
      Some (zero_floor finalTTK)
  end.

(** [String.prototype.toUpperCase], on ASCII text. *)
Definition ascii_upper (c : ascii) : ascii :=
  let n := nat_of_ascii c in
  if (97 <=? n)%nat && (n <=? 122)%nat then ascii_of_nat (n - 32) else c.

Fixpoint toUpperCase (s : string) : string :=
  match s with
  | EmptyString => EmptyString
  | String c s' => String (ascii_upper c) (toUpperCase s')
  end.

(** Lines 73-83 of [calculateRecoilAdjustedTTK]: the clamped hit
    probability [p]. [precision] and [control] are the numbers after their
    default ([100]) has been applied. *)
Definition recoil_hit_probability (precision control : num) (range : string) : num :=
  let hitPct := nmul (ndiv precision (Fin 100)) (ndiv control (Fin 100)) in
  let rangeMult := getRangeAccuracyMultiplier range in
  let hitPct := nmul hitPct rangeMult in
  let hitPct := if String.eqb range "10M" then nmax2 hitPct (Fin (9 # 10)) else hitPct in
  nmin2 (Fin 1) (nmax2 (Fin (1 # 20)) hitPct).

(** [Math.ceil(requiredHits / p)] *)
Definition recoil_expected_shots (requiredHits p : num) : num :=
  nceil (ndiv requiredHits p).

Definition is_immune_type (weaponType : string) : bool :=
  let type := toUpperCase weaponType in
  String.eqb type "SNIPER RIFLE" || String.eqb type "SHOTGUN".

(** [calculateRecoilAdjustedTTK(damage, rpm, precision, control, range, weaponType)] *)
Definition calculateRecoilAdjustedTTK (damage rpm : option num) (precision control : num)
    (range weaponType : string) : option num :=
  match ttk_guard damage rpm with
  | None => None
  | Some (d, r) =>
      let requiredHits := nceil (ndiv PLAYER_HEALTH d) in
      if is_immune_type weaponType then
        let timeBetweenShotsImmune := ndiv (Fin 60000) r in
        let ttkImmune := nmul (nsub requiredHits (Fin 1)) timeBetweenShotsImmune in
        Some (zero_floor (round1 ttkImmune))
      else
        let p := recoil_hit_probability precision control range in
        let expectedShots := recoil_expected_shots requiredHits p in
        let timeBetweenShots := ndiv (Fin 60000) r in
        let ttk := nmul (nsub expectedShots (Fin 1)) timeBetweenShots in
        Some (zero_floor (round1 ttk))
  end.

(** [calculateShotsToKill(damage)] *)
Definition calculateShotsToKill (damage : option num) : option num :=
  match damage with
  | Some d => if negb (ntruthy d) || nle d (Fin 0) then None
              else Some (nceil (ndiv PLAYER_HEALTH d))
  | None => None
  end.

(** ** Strings and JavaScript values *)

Open Scope string_scope.

(** JavaScript white space, restricted to ASCII: TAB, LF, VT, FF, CR, SP. *)
Definition is_ws (c : ascii) : bool :=
  let n := nat_of_ascii c in (n =? 32)%nat || ((9 <=? n)%nat && (n <=? 13)%nat).

Fixpoint trimStart (s : string) : string :=
  match s with
  | String c s' => if is_ws c then trimStart s' else s
  | EmptyString => EmptyString
  end.

Fixpoint trimEnd (s : string) : string :=
  match s with
  | String c s' =>
      let t := trimEnd s' in
      if is_ws c && String.eqb t "" then "" else String c t
  | EmptyString => EmptyString
  end.

(** [String.prototype.trim] *)
Definition trim (s : string) : string := trimEnd (trimStart s).

Definition digit_val (c : ascii) : option Z :=
  let n := nat_of_ascii c in
  if (48 <=? n)%nat && (n <=? 57)%nat then Some (Z.of_nat (n - 48)) else None.

(** Reads the longest run of decimal digits: its value, its length and
    the rest of the text. *)
Fixpoint read_digits (s : string) (acc : Z) (cnt : nat) : Z * nat * string :=
  match s with
  | String c s' =>
      match digit_val c with
      | Some d => read_digits s' (acc * 10 + d)%Z (S cnt)
      | None => (acc, cnt, s)
      end
  | EmptyString => (acc, cnt, s)
  end.

(** The value of an ExponentPart at the head of [s]; [0] when there is
    none (an [e] without digits is not part of the literal). *)
Definition read_exponent (s : string) : Z :=
  match s with
  | String c s' =>
      if Ascii.eqb c "e" || Ascii.eqb c "E" then
        let '(sg, s'') :=
          match s' with
          | String c' t =>
              if Ascii.eqb c' "+" then (1%Z, t)
              else if Ascii.eqb c' "-" then ((-1)%Z, t)
              else (1%Z, s')
          | EmptyString => (1%Z, s')
          end in
        let '(v, k, _) := read_digits s'' 0%Z 0 in
        if (k =? 0)%nat then 0%Z else (sg * v)%Z
      else 0%Z
  | EmptyString => 0%Z
  end.

(** The longest prefix of [s] that is a StrUnsignedDecimalLiteral. *)
Definition parse_unsigned (s : string) : num :=
  if String.prefix "Infinity" s then PInf else
  let '(iv, ni, r1) := read_digits s 0%Z 0 in
  let '(fv, nf, r2) :=
    match r1 with
    | String c r => if Ascii.eqb c "." then read_digits r 0%Z 0 else (0%Z, 0%nat, r1)
    | EmptyString => (0%Z, 0%nat, r1)
    end in
  if ((ni =? 0)%nat && (nf =? 0)%nat) then NaN
  else fin ((inject_Z iv + inject_Z fv / inject_Z (10 ^ Z.of_nat nf))
            * Qpower (inject_Z 10) (read_exponent r2)).

(** [parseFloat] on a string: leading white space is skipped, then the
    longest prefix that is a decimal literal (with optional sign) is read;
    [NaN] when there is none. *)
Definition parseFloat (s : string) : num :=
  match trimStart s with
  | String c r =>
      if Ascii.eqb c "-" then nneg (parse_unsigned r)
      else if Ascii.eqb c "+" then parse_unsigned r
      else parse_unsigned (String c r)
  | EmptyString => NaN
  end.

(** The JavaScript values the code handles. *)
Inductive jsval : Type :=
| JUndef
| JNull
| JBool (b : bool)
| JNum (n : num)
| JStr (s : string).

(** [parseFloat(v)] on any value: it reads [String(v)]. *)
Definition js_parseFloat (v : jsval) : num :=
  match v with
  | JNum n => n
  | JStr s => parseFloat s
  | _ => NaN
  end.

(** [parseNumeric] (js/data.js, lines 102-109). *)
Definition parseNumeric (value : jsval) : option num :=
  match value with
  | JNull | JUndef => None
  | JStr EmptyString => None
  | _ => let parsed := js_parseFloat value in
         if nisNaN parsed then None else Some parsed
  end.

(** ** Weapon records

    The object built by [processWeaponData]. Numeric fields hold [null]
    ([None]) or a number; the derived [TTK_<range>] and [STK_<range>]
    fields are kept as association lists keyed by their property name. *)
Record weapon : Type := mkWeapon {
  w_type : string;
  w_name : string;
  w_10M : option num;
  w_20M : option num;
  w_35M : option num;
  w_50M : option num;
  w_70M : option num;
  w_RPM : option num;
  w_DPS : option num;
  w_ADS : option num;
  w_TTK : list (string * option num);
  w_STK : list (string * option num);
  w_isComplete : bool;
  w_averageDamage : option num
}.

Definition of_opt (v : option num) : jsval :=
  match v with Some n => JNum n | None => JNull end.

(** [weapon[range]] for a range label. *)
Definition wdamage (w : weapon) (range : string) : option num :=
  if String.eqb range "10M" then w_10M w
  else if String.eqb range "20M" then w_20M w
  else if String.eqb range "35M" then w_35M w
  else if String.eqb range "50M" then w_50M w
  else if String.eqb range "70M" then w_70M w
  else None.

Definition is_range (key : string) : bool := existsb (String.eqb key) RANGES.

Fixpoint assoc (key : string) (l : list (string * option num)) : option (option num) :=
  match l with
  | [] => None
  | (k, v) :: l' => if String.eqb k key then Some v else assoc key l'
  end.

(** [weapon[key]] for any property name; absent properties are
    [undefined]. *)
Definition wget (w : weapon) (key : string) : jsval :=
  if String.eqb key "Weapon Type" then JStr (w_type w)
  else if String.eqb key "Weapon" then JStr (w_name w)
  else if is_range key then of_opt (wdamage w key)
  else if String.eqb key "RPM" then of_opt (w_RPM w)
  else if String.eqb key "DPS" then of_opt (w_DPS w)
  else if String.eqb key "ADS" then of_opt (w_ADS w)
  else if String.eqb key "isComplete" then JBool (w_isComplete w)
  else if String.eqb key "averageDamage" then of_opt (w_averageDamage w)
  else match assoc key (w_TTK w ++ w_STK w) with
       | Some v => of_opt v
       | None => JUndef
       end.

(** [value !== null && value !== undefined && value !== ''] *)
Definition present (v : jsval) : bool :=
  match v with
  | JNull | JUndef => false
  | JStr EmptyString => false
  | _ => true
  end.

(** [isWeaponDataComplete] (utility module, lines 109-120). *)
Definition isWeaponDataComplete (w : weapon) : bool :=
  forallb
    (fun field =>
       let value := wget w field in
       if String.eqb field "Weapon" || String.eqb field "Weapon Type" then present value
       else present value && negb (nisNaN (js_parseFloat value)))
    (["Weapon"; "Weapon Type"; "RPM"; "ADS"] ++ RANGES).

Definition nat_num (n : nat) : num := Fin (inject_Z (Z.of_nat n)).

(** [getAverageDamage] (utility module, lines 180-184). *)
Definition getAverageDamage (w : weapon) : option num :=
  let damages := filter (fun d => negb (nisNaN d))
                        (map (fun range => js_parseFloat (wget w range)) RANGES) in
  match damages with
  | [] => None
  | _ => Some (ndiv (fold_left nadd damages (Fin 0)) (nat_num (length damages)))
  end.

(** [getDamageDropoff] (utility module, lines 193-201). *)
Definition getDamageDropoff (w : weapon) (rangeStart rangeEnd : string) : option num :=
  let startDamage := js_parseFloat (wget w rangeStart) in
  let endDamage := js_parseFloat (wget w rangeEnd) in
  if negb (ntruthy startDamage) || negb (ntruthy endDamage) then None
  else
    let dropoff := nmul (ndiv (nsub startDamage endDamage) startDamage) (Fin 100) in
    Some (round1 dropoff).

(** ** Normalizer: [processWeaponData] (js/data.js, lines 58-95)

    A row from the CSV parser maps column names to strings; a missing
    column is [undefined]. *)
Definition row := list (string * string).

Definition row_get (r : row) (key : string) : option string :=
  match find (fun p => String.eqb (fst p) key) r with
  | Some (_, v) => Some v
  | None => None
  end.

Definition raw (v : option string) : jsval :=
  match v with Some s => JStr s | None => JUndef end.

(** [(row[key] || '')] *)
Definition str_or_empty (v : option string) : string :=
  match v with Some s => s | None => "" end.

Definition normalize_row (r : row) : weapon :=
  let base := mkWeapon
    (trim (str_or_empty (row_get r "Weapon Type")))
    (trim (str_or_empty (row_get r "Weapon")))
    (parseNumeric (raw (row_get r "10M")))
    (parseNumeric (raw (row_get r "20M")))
    (parseNumeric (raw (row_get r "35M")))
    (parseNumeric (raw (row_get r "50M")))
    (parseNumeric (raw (row_get r "70M")))
    (parseNumeric (raw (row_get r "RPM")))
    (parseNumeric (raw (row_get r "DPS")))
    (parseNumeric (raw (row_get r "ADS")))
    [] [] false None in
  let ttks := map (fun range => ("TTK_" ++ range, calculateTTK (wdamage base range) (w_RPM base) None))
                  RANGES in
  let stks := map (fun range => ("STK_" ++ range, calculateShotsToKill (wdamage base range)))
                  RANGES in
  let w1 := mkWeapon (w_type base) (w_name base) (w_10M base) (w_20M base) (w_35M base)
                     (w_50M base) (w_70M base) (w_RPM base) (w_DPS base) (w_ADS base)
                     ttks stks false None in
  let complete := isWeaponDataComplete w1 in
  let w2 := mkWeapon (w_type w1) (w_name w1) (w_10M w1) (w_20M w1) (w_35M w1)
                     (w_50M w1) (w_70M w1) (w_RPM w1) (w_DPS w1) (w_ADS w1)
                     ttks stks complete None in
  mkWeapon (w_type w2) (w_name w2) (w_10M w2) (w_20M w2) (w_35M w2)
           (w_50M w2) (w_70M w2) (w_RPM w2) (w_DPS w2) (w_ADS w2)
           ttks stks complete (getAverageDamage w2).

Definition nonempty (s : string) : bool := negb (String.eqb s "").

Definition processWeaponData (rawData : list row) : list weapon :=
  filter (fun w => nonempty (w_name w) && nonempty (w_type w)) (map normalize_row rawData).

Definition sample_row : row :=
  [("Weapon Type", "SMG"); ("Weapon", " Vector "); ("10M", "33"); ("20M", "25");
   ("35M", "20"); ("50M", ""); ("70M", "18"); ("RPM", "900"); ("DPS", "");
   ("ADS", "200")].

(** ** Query engine: [sortWeapons] (utility module, lines 210-240) *)

(** [value || Infinity] and [value || 0] *)
Definition or_inf (v : option num) : num :=
  match v with Some n => if ntruthy n then n else PInf | None => PInf end.

Definition or_zero (n : num) : num := if ntruthy n then n else Fin 0.

(** [calculateTTK(parseFloat(w[range]), parseFloat(w.RPM))] *)
Definition ttk_key (range : string) (w : weapon) : option num :=
  calculateTTK (Some (js_parseFloat (wget w range))) (Some (js_parseFloat (wget w "RPM"))) None.

(** The comparator passed to [Array.prototype.sort]. *)
Definition compare_weapons (sortBy range : string) (a b : weapon) : num :=
  if String.eqb sortBy "ttk" then
    nsub (or_inf (ttk_key range a)) (or_inf (ttk_key range b))
  else if String.eqb sortBy "damage" then
    nsub (or_zero (js_parseFloat (wget b range))) (or_zero (js_parseFloat (wget a range)))
  else if String.eqb sortBy "rpm" then
    nsub (or_zero (js_parseFloat (wget b "RPM"))) (or_zero (js_parseFloat (wget a "RPM")))
  else if String.eqb sortBy "dps" then
    nsub (or_zero (js_parseFloat (wget b "DPS"))) (or_zero (js_parseFloat (wget a "DPS")))
  else Fin 0.

Section StableSort.
Context {A : Type} (cmp : A -> A -> num).

(** [Array.prototype.sort] is stable; an element goes after another
    exactly when the comparator is positive ([NaN] counts as [+0]). For a
    consistent comparator every stable sort gives the same order, so the
    sort is modelled by stable insertion. *)
Definition goes_after (x y : A) : bool := nlt (Fin 0) (cmp x y).

Fixpoint insert_sorted (x : A) (l : list A) : list A :=
  match l with
  | [] => [x]
  | y :: l' => if goes_after x y then y :: insert_sorted x l' else x :: l
  end.

Fixpoint stable_sort (l : list A) : list A :=
  match l with
  | [] => []
  | x :: l' => insert_sorted x (stable_sort l')
  end.
End StableSort.

(** [sortWeapons(weapons, sortBy, range)]: [[...weapons].sort(...)] sorts
    a copy, so the argument list is a value the function does not change. *)
Definition sortWeapons (weapons : list weapon) (sortBy range : string) : list weapon :=
  stable_sort (compare_weapons sortBy range) weapons.

(** ** Aggregator *)

(** [getWeaponsByType(types)] of js/data.js, called with one type string;
    the module-level [weaponsData] is passed explicitly. *)
Definition getWeaponsByType (weaponsData : list weapon) (types : string) : list weapon :=
  if String.eqb types "" || String.eqb types "ALL" then weaponsData
  else filter (fun w => String.eqb (w_type w) types) weaponsData.

Record rpm_stats : Type := mkRpmStats {
  rpm_min : num;
  rpm_max : num;
  rpm_avg : num
}.

Record range_stats : Type := mkRangeStats {
  minDamage : num;
  maxDamage : num;
  avgDamage : num
}.

Record type_stats : Type := mkTypeStats {
  ts_count : nat;
  ts_complete : nat;
  ts_rpm : rpm_stats;
  ts_ranges : list (string * range_stats)
}.

Fixpoint known (l : list (option num)) : list num :=
  match l with
  | [] => []
  | Some x :: l' => x :: known l'
  | None :: l' => known l'
  end.

(** [w.RPM || 0] *)
Definition or_zero_opt (v : option num) : num :=
  match v with Some n => or_zero n | None => Fin 0 end.

(** [getWeaponTypeStats(weaponType)] (js/data.js, lines 255-285). *)
Definition getWeaponTypeStats (weaponsData : list weapon) (weaponType : string)
    : option type_stats :=
  let weapons := getWeaponsByType weaponsData weaponType in
  match weapons with
  | [] => None
  | _ =>
    let rpms := known (map w_RPM weapons) in
    let rpm :=
      mkRpmStats (math_min rpms) (math_max rpms)
        (ndiv (fold_left (fun sum w => nadd sum (or_zero_opt (w_RPM w))) weapons (Fin 0))
              (nat_num (length (filter (fun w => opt_truthy (w_RPM w)) weapons)))) in
    let ranges :=
      flat_map (fun range =>
          let damages := known (map (fun w => wdamage w range) weapons) in
          match damages with
          | [] => []
          | _ => [(range, mkRangeStats (math_min damages) (math_max damages)
                            (ndiv (fold_left nadd damages (Fin 0)) (nat_num (length damages))))]
          end) RANGES in
    Some (mkTypeStats (length weapons) (length (filter isWeaponDataComplete weapons)) rpm ranges)
  end.

(** [[...new Set(xs)]]: first occurrences, in order. *)
Fixpoint dedup_strings (seen : list string) (xs : list string) : list string :=
  match xs with
  | [] => []
  | x :: xs' =>
      if existsb (String.eqb x) seen then dedup_strings seen xs'
      else x :: dedup_strings (x :: seen) xs'
  end.

(** The object returned by [getWeaponStatistics]; the code renders the
    coverage number as the string [`${coverage}%`], [os_coverage] is that
    number. *)
Record overall_stats : Type := mkOverallStats {
  os_total : nat;
  os_complete : nat;
  os_incomplete : nat;
  os_types : nat;
  os_typesList : list string;
  os_coverage : num
}.

(** [getWeaponStatistics(weapons)] (utility module, lines 323-337). *)
Definition getWeaponStatistics (weapons : list weapon) : overall_stats :=
  let total := length weapons in
  let complete := length (filter isWeaponDataComplete weapons) in
  let types := dedup_strings [] (map w_type weapons) in
  let coverage :=
    if (0 <? total)%nat
    then nround (nmul (ndiv (nat_num complete) (nat_num total)) (Fin 100))
    else Fin 0 in
  mkOverallStats total complete (total - complete) (length types) types coverage.

Definition sample_weapons : list weapon :=
  processWeaponData
    [sample_row;
     [("Weapon Type", "SMG"); ("Weapon", "B"); ("10M", "50"); ("20M", "40");
      ("35M", "30"); ("50M", "20"); ("70M", "0"); ("RPM", ""); ("ADS", "250")];
     [("Weapon Type", "LMG"); ("Weapon", "C"); ("10M", "20"); ("20M", "20");
      ("35M", "20"); ("50M", "20"); ("70M", "20"); ("RPM", "600"); ("ADS", "300")]].

(** ** Query helpers of the utility module (lines 159-275) *)

(** [String.prototype.toLowerCase], on ASCII text. *)
Definition ascii_lower (c : ascii) : ascii :=
  let n := nat_of_ascii c in
  if (65 <=? n)%nat && (n <=? 90)%nat then ascii_of_nat (n + 32) else c.

Fixpoint toLowerCase (s : string) : string :=
  match s with
  | EmptyString => EmptyString
  | String c s' => String (ascii_lower c) (toLowerCase s')
  end.

(** [s.includes(t)]: [t] occurs in [s] at some position. *)
Fixpoint includes (s t : string) : bool :=
  String.prefix t s ||
  match s with
  | String _ s' => includes s' t
  | EmptyString => false
  end.

(** [getBestWeaponAtRange(weapons, range)]: the filter keeps records whose
    [parseFloat] damage and RPM are truthy; [currentTTK < bestTTK] compares
    [number|null] values, where [null] converts to [0]. *)
Definition best_valid (range : string) (w : weapon) : bool :=
  ntruthy (js_parseFloat (wget w range)) && ntruthy (js_parseFloat (wget w "RPM")).

Definition ttk_or_0 (v : option num) : num :=
  match v with Some x => x | None => Fin 0 end.

Definition best_step (range : string) (best current : weapon) : weapon :=
  if nlt (ttk_or_0 (ttk_key range current)) (ttk_or_0 (ttk_key range best))
  then current else best.

Definition getBestWeaponAtRange (weapons : list weapon) (range : string) : option weapon :=
  match filter (best_valid range) weapons with
  | [] => None
  | w0 :: rest => Some (fold_left (best_step range) rest w0)
  end.

(** [filterWeaponsByType(weapons, types)]; [types] is an array or
    [null]/[undefined] ([None]). *)
Definition filterWeaponsByType (weapons : list weapon) (types : option (list string))
    : list weapon :=
  match types with
  | None => weapons
  | Some ts =>
      if (length ts =? 0)%nat || existsb (String.eqb "ALL") ts then weapons
      else filter (fun w => existsb (String.eqb (w_type w)) ts) weapons
  end.

(** [searchWeapons(weapons, searchTerm)]; [None] is [null]/[undefined]. *)
Definition searchWeapons (weapons : list weapon) (searchTerm : option string) : list weapon :=
  match searchTerm with
  | None => weapons
  | Some s =>
      if String.eqb s "" || String.eqb (trim s) "" then weapons
      else
        let term := toLowerCase s in
        filter (fun w => includes (toLowerCase (w_name w)) term
                         || includes (toLowerCase (w_type w)) term) weapons
  end.

(** The value a descending sort compares: [parseFloat(w[field]) || 0]. *)
Definition metric_value (sortBy range : string) (w : weapon) : num :=
  let field := if String.eqb sortBy "damage" then range
               else if String.eqb sortBy "rpm" then "RPM" else "DPS" in
  or_zero (js_parseFloat (wget w field)).

(** ** Queries of js/data.js (lines 115-250, 292-350)

    The module-level [weaponsData] is passed explicitly. *)

(** [value !== null] *)
Definition not_null (v : jsval) : bool :=
  match v with JNull => false | _ => true end.

(** [[...new Set(...)].filter(t => t).sort()]: the default comparator
    orders strings by code units, here ASCII codes. *)
Definition string_cmp (a b : string) : num :=
  match String_as_OT.compare a b with
  | Lt => Fin (-1)
  | Eq => Fin 0
  | Gt => Fin 1
  end.

Definition getWeaponTypes (weaponsData : list weapon) : list string :=
  stable_sort string_cmp (filter nonempty (dedup_strings [] (map w_type weaponsData))).

(** [getWeaponByName(name)] *)
Definition getWeaponByName (weaponsData : list weapon) (name : string) : option weapon :=
  find (fun w => String.eqb (w_name w) name) weaponsData.

(** [getTopWeapons(n, metric, range)]; [slice(0, n)] for [n >= 0]. *)
Definition top_valid (metric range : string) (w : weapon) : bool :=
  if String.eqb metric "dps" then not_null (wget w "DPS")
  else if String.eqb metric "rpm" then not_null (wget w "RPM")
  else not_null (wget w range) && not_null (wget w "RPM").

Definition getTopWeapons (weaponsData : list weapon) (n : nat) (metric range : string)
    : list weapon :=
  firstn n (sortWeapons (filter (top_valid metric range) weaponsData) metric range).

Definition getCompleteWeapons (weaponsData : list weapon) : list weapon :=
  filter isWeaponDataComplete weaponsData.

Definition getIncompleteWeapons (weaponsData : list weapon) : list weapon :=
  filter (fun w => negb (isWeaponDataComplete w)) weaponsData.

(** [getWeaponsForRange(range, limit)]; [slice(0, limit)] for [limit >= 0]. *)
Definition getWeaponsForRange (weaponsData : list weapon) (range : string) (limit : nat)
    : list weapon :=
  firstn limit
    (sortWeapons (filter (fun w => not_null (wget w range) && not_null (wget w "RPM"))
                         weaponsData) "ttk" range).

(** The [filters] object of [applyFilters]: [types] and [search] may be
    absent ([None]); [completeOnly] is its truthiness. *)
Record filters : Type := mkFilters {
  f_types : option (list string);
  f_search : option string;
  f_completeOnly : bool;
  f_minRPM : option num;
  f_maxRPM : option num
}.

Definition rpm_in_bounds (filters : filters) (w : weapon) : bool :=
  match w_RPM w with
  | None => false
  | Some rpm =>
      negb (opt_truthy (f_minRPM filters) && nlt rpm (ttk_or_0 (f_minRPM filters)))
      && negb (opt_truthy (f_maxRPM filters) && nlt (ttk_or_0 (f_maxRPM filters)) rpm)
  end.

(** [applyFilters(filters)]; the returned array is also stored in
    [filteredData], which is not modelled. *)
Definition applyFilters (weaponsData : list weapon) (filters : filters) : list weapon :=
  let data := weaponsData in
  let data :=
    match f_types filters with
    | Some ts =>
        if negb (length ts =? 0)%nat && negb (existsb (String.eqb "ALL") ts)
        then filterWeaponsByType data (Some ts) else data
    | None => data
    end in
  let data :=
    match f_search filters with
    | Some s => if String.eqb s "" then data else searchWeapons data (Some s)
    | None => data
    end in
  let data := if f_completeOnly filters then filter isWeaponDataComplete data else data in
  if opt_truthy (f_minRPM filters) || opt_truthy (f_maxRPM filters)
  then filter (rpm_in_bounds filters) data else data.

(** [compareWeapons(weapon1Name, weapon2Name)]: the [ranges] object maps
    each range to the [damage], [ttk] and [stk] pairs, read as
    [weapon[range]], [weapon[`TTK_${range}`]] and [weapon[`STK_${range}`]]. *)
Record range_comparison : Type := mkRangeComparison {
  rc_damage : jsval * jsval;
  rc_ttk : jsval * jsval;
  rc_stk : jsval * jsval
}.

Record comparison : Type := mkComparison {
  cmp_weapons : string * string;
  cmp_types : string * string;
  cmp_rpm : option num * option num;
  cmp_dps : option num * option num;
  cmp_ranges : list (string * range_comparison)
}.

Definition compareWeapons (weaponsData : list weapon) (weapon1Name weapon2Name : string)
    : option comparison :=
  let w1 := getWeaponByName weaponsData weapon1Name in
  let w2 := getWeaponByName weaponsData weapon2Name in
  match w1, w2 with
  | Some w1, Some w2 =>
      Some (mkComparison (w_name w1, w_name w2) (w_type w1, w_type w2)
              (w_RPM w1, w_RPM w2) (w_DPS w1, w_DPS w2)
              (map (fun range =>
                      (range, mkRangeComparison
                                (wget w1 range, wget w2 range)
                                (wget w1 ("TTK_" ++ range), wget w2 ("TTK_" ++ range))
                                (wget w1 ("STK_" ++ range), wget w2 ("STK_" ++ range))))
                   RANGES))
  | _, _ => None
  end.

(** The metrics [sortWeapons] orders from high to low. *)
Definition descending_metric (sortBy : string) : Prop :=
  sortBy = "damage" \/ sortBy = "rpm" \/ sortBy = "dps".

(** ** Reading of the specification's formulas

    "rounded to one decimal place" is [Math.round(x * 10) / 10]; the
    zero-floor rule reports [1] for a rounded value of exactly [0]. *)
Definition round1Q (x : Q) : Q := inject_Z (Qfloor (x * 10 + (1 # 2))) / 10.

Definition zero_floorQ (v : Q) : Q := if Qeq_bool v 0 then 1 else v.

(** [(ceil(100/d) - 1) * (60000/r) + adsTimeMs] *)
Definition ttk_formula (d r a : Q) : Q :=
  (inject_Z (Qceiling (100 / d)) - 1) * (60000 / r) + a.

(** "unknown or <= 0" for a number argument: [null]/[undefined], [NaN],
    a value [<= 0] or [-Infinity]. *)
Definition unknown_or_nonpos (v : option num) : Prop :=
  match v with
  | None | Some NaN | Some NInf => True
  | Some (Fin q) => q <= 0
  | Some PInf => False
  end.

(** Case-insensitive equality of weapon type names. *)
Definition ci_eq (a b : string) : bool := String.eqb (toUpperCase a) (toUpperCase b).

Definition qmax (a b : Q) : Q := if Qle_bool a b then b else a.
Definition qmin (a b : Q) : Q := if Qle_bool a b then a else b.

(** The range multiplier table of the specification. *)
Definition rangeMultiplierQ (range : string) : Q :=
  if String.eqb range "10M" then 1
  else if String.eqb range "20M" then 95 # 100
  else if String.eqb range "35M" then 90 # 100
  else if String.eqb range "50M" then 85 # 100
  else if String.eqb range "70M" then 80 # 100
  else 1.

(** [(precision/100) * (control/100) * rangeMultiplier(range)] *)
Definition computed_hit (precision control : Q) (range : string) : Q :=
  (precision / 100) * (control / 100) * rangeMultiplierQ range.

(** The computed probability, floored at [0.90] at range [10M], then
    clamped to [[0.05, 1.0]]. *)
Definition spec_hit_probability (precision control : Q) (range : string) : Q :=
  let c := computed_hit precision control range in
  let c := if String.eqb range "10M" then qmax c (90 # 100) else c in
  qmin 1 (qmax (5 # 100) c).


(** A result that is [null] or a finite number [> 0]. *)
Definition positive_result (o : option num) : Prop :=
  match o with
  | None => True
  | Some (Fin v) => 0 < v
  | Some _ => False
  end.

(** Two sort keys are equal: both [null], or strictly equal numbers. *)
Definition same_key (a b : option num) : bool :=
  match a, b with
  | None, None => true
  | Some x, Some y => nstrict_eq x y
  | _, _ => false
  end.

(** [a] may precede [b] in an order by [key]: [b]'s key is not below [a]'s. *)
Definition key_le {A : Type} (key : A -> num) (a b : A) : Prop := nlt (key b) (key a) = false.

(** A record with every field unknown (the default of [nth]). *)
Definition no_weapon : weapon :=
  mkWeapon "" "" None None None None None None None None [] [] false None.

(** A shotgun row with no RPM column. *)
Definition shotgun_weapons : list weapon :=
  processWeaponData
    [[("Weapon Type", "Shotgun"); ("Weapon", "D"); ("10M", "50"); ("20M", "40");
      ("35M", "30"); ("50M", "28"); ("70M", "25"); ("ADS", "250")]].

(** The clamp of the recoil model: the hit probability is kept in
    [[0.05, 1]]. *)
Definition clampQ (x : Q) : Q := qmin 1 (qmax (5 # 100) x).

(** ** The calculator in binary64 arithmetic

    JavaScript numbers are IEEE-754 binary64 values, and so are Rocq's
    primitive floats: each operation rounds to nearest (ties to even),
    overflows to the infinities, gives [NaN] for [0 * Infinity] and
    [Infinity - Infinity], and keeps the sign of zero. The module below
    evaluates the metric calculator, the coverage of [getWeaponStatistics]
    and [sortWeapons] on them, with the source's names. *)
Module F64.

Import PrimFloat SpecFloat FloatOps FloatAxioms.
#[local] Set Warnings "-inexact-float".
Local Open Scope float_scope.

(** The number nearest to a rational (ties to even), overflowing to the
    infinities: the value of a numeric literal, or of the decimal that
    [parseFloat] reads. [SFdiv] rounds the exact quotient of the two
    integers once. *)
Definition of_Q (q : Q) : float :=
  match Qnum q with
  | Z0 => 0
  | Zpos n => SF2Prim (SFdiv prec emax (S754_finite false n 0) (S754_finite false (Qden q) 0))
  | Zneg n => SF2Prim (SFdiv prec emax (S754_finite true n 0) (S754_finite false (Qden q) 0))
  end.

(** An array length as a number. *)
Definition of_nat (n : nat) : float := of_Q (inject_Z (Z.of_nat n)).

(** [isNaN] on a number. *)
Definition isNaN (x : float) : bool := is_nan x.

(** ToBoolean on a number: [+0], [-0] and [NaN] are falsy. *)
Definition truthy (x : float) : bool := negb (is_nan x) && negb (x =? 0).

(** [Math.ceil] and [Math.round], computed exactly from the binary value
    [(-1)^s * m * 2^e]. [NaN], the infinities, the zeros and the values
    with [e >= 0] are integers and come back unchanged. Otherwise the
    result is the exact ceiling, or the exact [floor(x + 1/2)] (ties
    toward [+Infinity]); it is [-0] when it is [0] for a negative [x]. *)
Definition signed_mantissa (s : bool) (m : positive) : Z := if s then Zneg m else Zpos m.

Definition math_ceil (x : float) : float :=
  match Prim2SF x with
  | S754_finite s m (Zneg k) =>
      let c := (- (- signed_mantissa s m / 2 ^ Zpos k))%Z in
      if s && (c =? 0)%Z then -0 else of_Q (inject_Z c)
  | _ => x
  end.

Definition math_round (x : float) : float :=
  match Prim2SF x with
  | S754_finite s m (Zneg k) =>
      let c := ((2 * signed_mantissa s m + 2 ^ Zpos k) / (2 * 2 ^ Zpos k))%Z in
      if s && (c =? 0)%Z then -0 else of_Q (inject_Z c)
  | _ => x
  end.

(** [Math.max(x, y)] and [Math.min(x, y)]: [NaN] if either argument is
    [NaN]; [+0] counts as larger than [-0]. *)
Definition math_max (x y : float) : float :=
  if is_nan x || is_nan y then nan
  else if x <? y then y
  else if y <? x then x
  else if get_sign x then y else x.

Definition math_min (x y : float) : float :=
  if is_nan x || is_nan y then nan
  else if x <? y then x
  else if y <? x then y
  else if get_sign x then x else y.

Definition PLAYER_HEALTH : float := 100.

(** A property of the object literal [map] of [getRangeAccuracyMultiplier]:
    one of its own numbers, or a member every object inherits from
    [Object.prototype] (a method, or [Object.prototype] itself for
    [__proto__]). *)
Inductive property : Type :=
| Own (x : float)
| Inherited.

(** The property names of [Object.prototype]. *)
Definition object_prototype_keys : list string :=
  ["constructor"; "hasOwnProperty"; "isPrototypeOf"; "propertyIsEnumerable";
   "toLocaleString"; "toString"; "valueOf"; "__proto__"; "__defineGetter__";
   "__defineSetter__"; "__lookupGetter__"; "__lookupSetter__"].

(** [map[range]]; [None] is [undefined]. *)
Definition map_lookup (range : string) : option property :=
  if String.eqb range "10M" then Some (Own 1.0)
  else if String.eqb range "20M" then Some (Own 0.95)
  else if String.eqb range "35M" then Some (Own 0.9)
  else if String.eqb range "50M" then Some (Own 0.85)
  else if String.eqb range "70M" then Some (Own 0.8)
  else if existsb (String.eqb range) object_prototype_keys then Some Inherited
  else None.

(** [map[range] != null ? map[range] : 1.0]; no property of [map] is
    [null]. *)
Definition getRangeAccuracyMultiplier (range : string) : property :=
  match map_lookup range with
  | Some v => v
  | None => Own 1.0
  end.

(** ToNumber of the multiplier, applied by [hitPct * rangeMult]: a
    function or a plain object converts to [NaN]. *)
Definition to_number (v : property) : float :=
  match v with
  | Own x => x
  | Inherited => nan
  end.

(** [Math.round(x * 10) / 10] *)
Definition round1 (x : float) : float := math_round (x * 10) / 10.

(** [finalTTK === 0 ? 1 : finalTTK]; [-0 === 0] holds. *)
Definition zero_floor (x : float) : float := if x =? 0 then 1 else x.

(** [!damage || !rpm || damage <= 0 || rpm <= 0]; [None] is [null] or
    [undefined], both falsy. *)
Definition ttk_guard (damage rpm : option float) : option (float * float) :=
  match damage, rpm with
  | Some d, Some r =>
      if negb (truthy d) || negb (truthy r) || (d <=? 0) || (r <=? 0)
      then None else Some (d, r)
  | _, _ => None
  end.

(** [adsTime || 0], with the default [adsTime = 0] for [undefined]. *)
Definition ads_or_zero (adsTime : option float) : float :=
  match adsTime with
  | Some a => if truthy a then a else 0
  | None => 0
  end.

(** [calculateTTK(damage, rpm, adsTime = 0)] (utility module, lines 33-45);
    [None] is [null]. *)
Definition calculateTTK (damage rpm adsTime : option float) : option float :=
  match ttk_guard damage rpm with
  | None => None
  | Some (d, r) =>
      let shotsToKill := math_ceil (PLAYER_HEALTH / d) in
      let timeBetweenShots := 60000 / r in
      let ttk := (shotsToKill - 1) * timeBetweenShots + ads_or_zero adsTime in
      let finalTTK := round1 ttk in
      Some (zero_floor finalTTK)
  end.

(** [hitPct] before the near-range floor:
    [(Number(precision) / 100) * (Number(control) / 100) * rangeMult];
    [precision] and [control] are numbers, after their default [100]. *)
Definition computed_hit (precision control : float) (range : string) : float :=
  let hitPct := (precision / 100) * (control / 100) in
  let rangeMult := getRangeAccuracyMultiplier range in
  hitPct * to_number rangeMult.

(** Lines 73-83 of [calculateRecoilAdjustedTTK]: the probability [p]. *)
Definition recoil_hit_probability (precision control : float) (range : string) : float :=
  let hitPct := computed_hit precision control range in
  let hitPct := if String.eqb range "10M" then math_max hitPct 0.9 else hitPct in
  math_min 1 (math_max 0.05 hitPct).

(** [calculateRecoilAdjustedTTK(damage, rpm, precision, control, range,
    weaponType)] (utility module, lines 57-90). [is_immune_type] upper-cases
    ASCII letters only; on text of one-byte characters this decides the
    immunity test as JavaScript does, since no other such character
    upper-cases to a letter of ["SNIPER RIFLE"] or ["SHOTGUN"] (["ß"]
    gives ["SS"], which neither contains). *)
Definition calculateRecoilAdjustedTTK (damage rpm : option float) (precision control : float)
    (range weaponType : string) : option float :=
  match ttk_guard damage rpm with
  | None => None
  | Some (d, r) =>
      let requiredHits := math_ceil (PLAYER_HEALTH / d) in
      if is_immune_type weaponType then
        let timeBetweenShotsImmune := 60000 / r in
        let ttkImmune := (requiredHits - 1) * timeBetweenShotsImmune in
        let finalImmune := round1 ttkImmune in
        Some (zero_floor finalImmune)
      else
        let p := recoil_hit_probability precision control range in
        let expectedShots := math_ceil (requiredHits / p) in
        let timeBetweenShots := 60000 / r in
        let ttk := (expectedShots - 1) * timeBetweenShots in
        let finalTTK := round1 ttk in
        Some (zero_floor finalTTK)
  end.

(** The values a record property holds for the sort. *)
Inductive value : Type :=
| VUndef
| VNull
| VBool (b : bool)
| VNum (x : float)
| VStr (s : string).

(** A record as an object literal: its properties in order; an absent
    property is [undefined]. *)
Definition object := list (string * value).

Fixpoint get (o : object) (key : string) : value :=
  match o with
  | [] => VUndef
  | (k, v) :: o' => if String.eqb k key then v else get o' key
  end.

(** [parseFloat] of a text: the decimal (or [Infinity]) prefix read by the
    reader of the exact model, rounded once to the nearest number; a zero
    written with a minus sign is [-0]. *)
Definition negative_text (s : string) : bool :=
  match trimStart s with
  | String c _ => Ascii.eqb c "-"
  | EmptyString => false
  end.

Definition parse_text (s : string) : float :=
  match parseFloat s with
  | Fin q => if Qeq_bool q 0%Q && negative_text s then -0 else of_Q q
  | PInf => infinity
  | NInf => neg_infinity
  | NaN => nan
  end.

(** [parseFloat(v)] reads [String(v)]: a number gives itself back, except
    that [String(-0)] is ["0"]; [true], [false], [null] and [undefined]
    give [NaN]. *)
Definition parseFloat (v : value) : float :=
  match v with
  | VNum x => if x =? 0 then 0 else x
  | VStr s => parse_text s
  | _ => nan
  end.

(** [calculateTTK(parseFloat(a[range]), parseFloat(a.RPM))] *)
Definition ttk_value (range : string) (a : object) : option float :=
  calculateTTK (Some (parseFloat (get a range))) (Some (parseFloat (get a "RPM"))) None.

(** [aValue || Infinity] for a [null]-or-number TTK. *)
Definition or_infinity (v : option float) : float :=
  match v with
  | Some x => if truthy x then x else infinity
  | None => infinity
  end.

(** [v || 0] *)
Definition or_zero (x : float) : float := if truthy x then x else 0.

(** The comparator of [sortWeapons] (utility module, lines 211-238). *)
Definition compare_weapons (sortBy range : string) (a b : object) : float :=
  if String.eqb sortBy "ttk" then
    or_infinity (ttk_value range a) - or_infinity (ttk_value range b)
  else if String.eqb sortBy "damage" then
    or_zero (parseFloat (get b range)) - or_zero (parseFloat (get a range))
  else if String.eqb sortBy "rpm" then
    or_zero (parseFloat (get b "RPM")) - or_zero (parseFloat (get a "RPM"))
  else if String.eqb sortBy "dps" then
    or_zero (parseFloat (get b "DPS")) - or_zero (parseFloat (get a "DPS"))
  else 0.

(** [Array.prototype.sort] is stable; an element goes after another
    exactly when the comparator is [> 0] ([NaN] counts as [+0]), as in the
    exact model's [stable_sort]. *)
Fixpoint insert_sorted (cmp : object -> object -> float) (x : object) (l : list object)
    : list object :=
  match l with
  | [] => [x]
  | y :: l' => if 0 <? cmp x y then y :: insert_sorted cmp x l' else x :: l
  end.

Fixpoint stable_sort (cmp : object -> object -> float) (l : list object) : list object :=
  match l with
  | [] => []
  | x :: l' => insert_sorted cmp x (stable_sort cmp l')
  end.

(** [sortWeapons(weapons, sortBy, range)]: [[...weapons].sort(...)]. *)
Definition sortWeapons (weapons : list object) (sortBy range : string) : list object :=
  stable_sort (compare_weapons sortBy range) weapons.

(** The object [getWeaponStatistics] returns; the code renders the
    coverage number as the string [`${coverage}%`], [st_coverage] is that
    number. *)
Record statistics : Type := mkStatistics {
  st_total : nat;
  st_complete : nat;
  st_incomplete : nat;
  st_types : nat;
  st_typesList : list string;
  st_coverage : float
}.

(** [getWeaponStatistics(weapons)] (utility module, lines 323-337). *)
Definition getWeaponStatistics (weapons : list weapon) : statistics :=
  let total := length weapons in
  let complete := length (filter isWeaponDataComplete weapons) in
  let types := dedup_strings [] (map w_type weapons) in
  let coverage :=
    if (0 <? total)%nat
    then math_round ((of_nat complete / of_nat total) * 100)
    else 0 in
  mkStatistics total complete (total - complete) (length types) types coverage.

(** "unknown or <= 0" for a number argument: [null]/[undefined], [NaN], or
    a value [<= 0] (the zeros and [-Infinity] included). *)
Definition unknown_or_nonpos (v : option float) : Prop :=
  match v with
  | None => True
  | Some x => is_nan x = true \/ (x <=? 0) = true
  end.

(** The two records of a sort by TTK at [10M] and 600 RPM: damage [0],
    whose TTK is [null], and damage [5e-324], the smallest positive
    number. *)
Definition zero_damage : object := [("Weapon", VStr "U"); ("10M", VNum 0); ("RPM", VNum 600)].

Definition tiny_damage : object :=
  [("Weapon", VStr "D"); ("10M", VNum 5e-324); ("RPM", VNum 600)].

End F64.

(** ** Evaluations on sample inputs *)

Example calculateTTK_ex1 :
  calculateTTK (Some (Fin 25)) (Some (Fin 600)) None = Some (Fin 300).
Proof. vm_compute. reflexivity. Qed.

Example calculateTTK_ex2 :
  calculateTTK (Some (Fin 50)) (Some (Fin 1200000)) None = Some (Fin (1 # 10)).
Proof. vm_compute. reflexivity. Qed.

Example recoil_ex1 :
  calculateRecoilAdjustedTTK (Some (Fin 75)) (Some (Fin 40)) (Fin 10) (Fin 10) "70M" "Sniper Rifle"
  = Some (Fin 1500).
Proof. vm_compute. reflexivity. Qed.

Example recoil_ex2 :
  calculateRecoilAdjustedTTK (Some (Fin 25)) (Some (Fin 600)) (Fin 10) (Fin 10) "10M" "SMG"
  = Some (Fin 400).
Proof. vm_compute. reflexivity. Qed.

Example parseFloat_ex1 : parseFloat "  -12.5e1x" = Fin (-125).
Proof. vm_compute. reflexivity. Qed.

Example parseFloat_ex2 : parseFloat ".e1" = NaN.
Proof. vm_compute. reflexivity. Qed.

Example processWeaponData_ex :
  map (fun w => (w_name w, w_10M w, w_50M w, w_isComplete w)) (processWeaponData [sample_row])
  = [("Vector", Some (Fin 33), None, false)].
Proof. vm_compute. reflexivity. Qed.

Example sort_ex :
  map w_name (sortWeapons sample_weapons "ttk" "10M") = ["Vector"; "C"; "B"].
Proof. vm_compute. reflexivity. Qed.

Example stats_ex :
  os_coverage (getWeaponStatistics sample_weapons) = Fin 33.
Proof. vm_compute. reflexivity. Qed.

(** ** Arithmetic on finite numbers *)

Lemma fin_Qeq (a b : Q) : a == b -> fin a = fin b.
Proof. intro H. unfold fin. f_equal. apply Qred_complete. exact H. Qed.

Lemma add_Fin (a b : Q) : nadd (Fin a) (Fin b) = fin (a + b).
Proof. reflexivity. Qed.

Lemma mul_Fin (a b : Q) : nmul (Fin a) (Fin b) = fin (a * b).
Proof. reflexivity. Qed.

Lemma neg_Fin (a : Q) : nneg (Fin a) = fin (- a).
Proof. reflexivity. Qed.

Lemma ceil_Fin (a : Q) : nceil (Fin a) = fin (inject_Z (Qceiling a)).
Proof. reflexivity. Qed.

Lemma round_Fin (a : Q) : nround (Fin a) = fin (inject_Z (Qfloor (a + (1 # 2)))).
Proof. reflexivity. Qed.

Lemma div_Fin (a b : Q) : ~ b == 0 -> ndiv (Fin a) (Fin b) = fin (a / b).
Proof.
  intro H. unfold ndiv.
  destruct (Qeq_bool b 0) eqn:E; [apply Qeq_bool_iff in E; contradiction | reflexivity].
Qed.

Lemma Qeq_bool_false (a b : Q) : ~ a == b -> Qeq_bool a b = false.
Proof.
  intro H. destruct (Qeq_bool a b) eqn:E; [apply Qeq_bool_iff in E; contradiction | reflexivity].
Qed.

Ltac num_step :=
  first [ rewrite add_Fin | rewrite mul_Fin | rewrite neg_Fin | rewrite ceil_Fin
        | rewrite round_Fin
        | rewrite div_Fin by (rewrite ?Qred_correct; first [discriminate | lra]) ].

Ltac num_simpl := repeat (unfold fin; num_step); unfold fin.

(** ** The recoil-adjusted TTK *)

Lemma Qle_bool_red (a b : Q) : Qle_bool (Qred a) (Qred b) = Qle_bool a b.
Proof. apply Qleb_comp; apply Qred_correct. Qed.

Lemma Qle_bool_total (a b : Q) : Qle_bool a b = false -> Qle_bool b a = true.
Proof.
  intro H. apply Qle_bool_iff. destruct (Qlt_le_dec b a) as [Hl|Hl]; [|].
  - apply Qlt_le_weak. exact Hl.
  - apply Qle_bool_iff in Hl. congruence.
Qed.

Lemma nmax2_fin (a b : Q) : nmax2 (Fin (Qred a)) (Fin (Qred b)) = fin (qmax a b).
Proof.
  unfold nmax2, nlt, qlt, qmax. rewrite Qle_bool_red.
  destruct (Qle_bool b a) eqn:E1; destruct (Qle_bool a b) eqn:E2; simpl; try reflexivity;
    try (apply Qle_bool_total in E2; congruence).
  apply Qle_bool_iff in E1. apply Qle_bool_iff in E2.
  apply fin_Qeq. apply Qle_antisym; assumption.
Qed.

Lemma nmin2_fin (a b : Q) : nmin2 (Fin (Qred a)) (Fin (Qred b)) = fin (qmin a b).
Proof.
  unfold nmin2, nlt, qlt, qmin. rewrite Qle_bool_red.
  destruct (Qle_bool a b); reflexivity.
Qed.

Lemma rangeMultiplier_fin (range : string) :
  getRangeAccuracyMultiplier range = fin (rangeMultiplierQ range).
Proof.
  unfold getRangeAccuracyMultiplier, rangeMultiplierQ.
  repeat match goal with
         | |- context [if ?c then _ else _] => destruct c
         end; reflexivity.
Qed.

Lemma hit_probability_fin (precision control : Q) (range : string) :
  recoil_hit_probability (Fin precision) (Fin control) range
  = fin (spec_hit_probability precision control range).
Proof.
  unfold recoil_hit_probability, spec_hit_probability, computed_hit.
  rewrite rangeMultiplier_fin. num_simpl.
  change (Fin (9 # 10)) with (Fin (Qred (90 # 100))).
  change (Fin (1 # 20)) with (Fin (Qred (5 # 100))).
  change (Fin 1) with (Fin (Qred 1)).
  assert (E : Qred (Qred (Qred (precision / 100) * Qred (control / 100))
                      * Qred (rangeMultiplierQ range))
             = Qred (precision / 100 * (control / 100) * rangeMultiplierQ range)).
  { apply Qred_complete. rewrite !Qred_correct. reflexivity. }
  rewrite E.
  destruct (String.eqb range "10M").
  - rewrite nmax2_fin. unfold fin. rewrite nmax2_fin. unfold fin. rewrite nmin2_fin. reflexivity.
  - rewrite nmax2_fin. unfold fin. rewrite nmin2_fin. reflexivity.
Qed.

(** ** Shape of the TTK results *)

Lemma zero_floor_nonzero (x : num) : nstrict_eq (zero_floor x) (Fin 0) = false.
Proof.
  unfold zero_floor. destruct (nstrict_eq x (Fin 0)) eqn:E; [reflexivity | exact E].
Qed.

Lemma round1_Fin_fin (q : Q) : exists q', round1 (Fin q) = Fin q'.
Proof. eexists. unfold round1. num_simpl. reflexivity. Qed.

Lemma ndiv_const_truthy (c : Q) (x : num) :
  ntruthy x = true -> exists q, ndiv (Fin c) x = Fin q.
Proof.
  intro H. destruct x as [b| | |]; simpl in H; try discriminate.
  - apply negb_true_iff in H. simpl. rewrite H. eexists. reflexivity.
  - eexists. reflexivity.
  - eexists. reflexivity.
Qed.

Lemma ttk_guard_Some (d r : option num) (x y : num) :
  ttk_guard d r = Some (x, y) ->
  d = Some x /\ r = Some y /\ ntruthy x = true /\ ntruthy y = true.
Proof.
  unfold ttk_guard. destruct d as [d|], r as [r|]; try discriminate.
  destruct (ntruthy d) eqn:Ed, (ntruthy r) eqn:Er; simpl; try discriminate.
  destruct (_ || _); [discriminate|]. intro H. injection H as <- <-. auto.
Qed.

(** With no ADS time, a defined base TTK is a finite non-zero number. *)
Lemma calculateTTK_shape (d r : option num) :
  calculateTTK d r None = None \/
  exists q, calculateTTK d r None = Some (Fin q) /\ ~ q == 0.
Proof.
  unfold calculateTTK. destruct (ttk_guard d r) as [[x y]|] eqn:G; [right|left; reflexivity].
  apply ttk_guard_Some in G. destruct G as [_ [_ [Hx Hy]]].
  destruct (ndiv_const_truthy 100 x Hx) as [q1 E1].
  destruct (ndiv_const_truthy 60000 y Hy) as [q2 E2].
  unfold PLAYER_HEALTH. rewrite E1, E2. simpl ads_or_zero.
  unfold nsub. rewrite ceil_Fin. unfold fin. rewrite neg_Fin. unfold fin.
  rewrite add_Fin. unfold fin. rewrite mul_Fin. unfold fin. rewrite add_Fin. unfold fin.
  match goal with |- context [round1 (Fin ?t)] => destruct (round1_Fin_fin t) as [q E3] end.
  rewrite E3. pose proof (zero_floor_nonzero (Fin q)) as Z.
  unfold zero_floor in *. destruct (nstrict_eq (Fin q) (Fin 0)) eqn:E4.
  - exists 1. split; [reflexivity | discriminate].
  - exists q. split; [reflexivity|]. simpl in E4. intro H. apply Qeq_bool_iff in H. congruence.
Qed.

(** ** Order of numbers *)

Lemma qlt_true (a b : Q) : qlt a b = true <-> a < b.
Proof.
  unfold qlt. rewrite negb_true_iff. split; intro H.
  - apply Qnot_le_lt. intro H'. apply Qle_bool_iff in H'. congruence.
  - destruct (Qle_bool b a) eqn:E; [|reflexivity].
    apply Qle_bool_iff in E. exfalso. apply (Qlt_not_le _ _ H E).
Qed.

Lemma qlt_false (a b : Q) : qlt a b = false <-> b <= a.
Proof.
  unfold qlt. rewrite negb_false_iff. apply Qle_bool_iff.
Qed.

Lemma nlt_asym (a b : num) : nlt a b = true -> nlt b a = false.
Proof.
  destruct a as [a| | |], b as [b| | |]; simpl; try discriminate; try reflexivity.
  intro H. apply qlt_true in H. apply qlt_false. apply Qlt_le_weak. exact H.
Qed.

(** "not below" is transitive on numbers other than [NaN]. *)
Lemma nlt_false_trans (a b c : num) :
  nisNaN b = false -> nlt b a = false -> nlt c b = false -> nlt c a = false.
Proof.
  destruct a as [a| | |], b as [b| | |], c as [c| | |]; simpl;
    try discriminate; try reflexivity.
  rewrite !qlt_false. intros _ H1 H2. apply (Qle_trans _ b); assumption.
Qed.

Lemma Qle_bool_sub (x y : Q) : Qle_bool (x - y) 0 = Qle_bool x y.
Proof.
  destruct (Qle_bool x y) eqn:E.
  - apply Qle_bool_iff in E. apply Qle_bool_iff. lra.
  - destruct (Qle_bool (x - y) 0) eqn:F; [|reflexivity].
    apply Qle_bool_iff in F. assert (x <= y) by lra. apply Qle_bool_iff in H. congruence.
Qed.

(** ** Stable insertion sort *)

Section StableSortFacts.
Context {A : Type} (cmp : A -> A -> num) (key : A -> num).
Hypothesis goes_after_key : forall a b, goes_after cmp a b = nlt (key b) (key a).
Hypothesis key_not_NaN : forall a, nisNaN (key a) = false.

Lemma insert_sorted_perm (x : A) (l : list A) : Permutation (x :: l) (insert_sorted cmp x l).
Proof.
  induction l as [|y l IH]; simpl; [reflexivity|].
  destruct (goes_after cmp x y); [|reflexivity].
  rewrite perm_swap. constructor. exact IH.
Qed.

Lemma stable_sort_perm (l : list A) : Permutation l (stable_sort cmp l).
Proof.
  induction l as [|x l IH]; simpl; [reflexivity|].
  rewrite <- insert_sorted_perm. constructor. exact IH.
Qed.

Lemma insert_sorted_sorted (x : A) (l : list A) :
  Sorted (key_le key) l -> Sorted (key_le key) (insert_sorted cmp x l).
Proof.
  induction l as [|y l IH]; simpl; intro S; [repeat constructor|].
  destruct (goes_after cmp x y) eqn:G.
  - rewrite goes_after_key in G. apply Sorted_inv in S. destruct S as [S H].
    constructor; [exact (IH S)|].
    destruct l as [|z l]; simpl.
    + constructor. apply nlt_asym. exact G.
    + destruct (goes_after cmp x z); constructor.
      * inversion H; assumption.
      * apply nlt_asym. exact G.
  - rewrite goes_after_key in G. constructor; [exact S | constructor; exact G].
Qed.

Lemma stable_sort_sorted (l : list A) : StronglySorted (key_le key) (stable_sort cmp l).
Proof.
  apply Sorted_StronglySorted.
  - intros a b c H1 H2. unfold key_le in *.
    apply (nlt_false_trans _ (key b)); [apply key_not_NaN | exact H1 | exact H2].
  - induction l as [|x l IH]; simpl; [constructor|].
    apply insert_sorted_sorted. exact IH.
Qed.

Lemma filter_insert_out (P : A -> bool) (x : A) (l : list A) :
  P x = false -> filter P (insert_sorted cmp x l) = filter P l.
Proof.
  intro Hx. induction l as [|y l IH]; simpl.
  - rewrite Hx. reflexivity.
  - destruct (goes_after cmp x y); simpl.
    + rewrite IH. reflexivity.
    + rewrite Hx. reflexivity.
Qed.

Lemma filter_insert_in (P : A -> bool) (x : A) (l : list A) :
  (forall y, P y = true -> nlt (key y) (key x) = false) ->
  P x = true -> filter P (insert_sorted cmp x l) = x :: filter P l.
Proof.
  intros Heq Hx. induction l as [|y l IH]; simpl.
  - rewrite Hx. reflexivity.
  - destruct (goes_after cmp x y) eqn:G; simpl.
    + destruct (P y) eqn:Py.
      * rewrite goes_after_key, (Heq y Py) in G. discriminate.
      * exact IH.
    + rewrite Hx. reflexivity.
Qed.

Lemma stable_sort_filter (P : A -> bool) (l : list A) :
  (forall x y, P x = true -> P y = true -> nlt (key y) (key x) = false) ->
  filter P (stable_sort cmp l) = filter P l.
Proof.
  intro Heq. induction l as [|x l IH]; simpl; [reflexivity|].
  destruct (P x) eqn:Px.
  - rewrite filter_insert_in by (intros; auto). rewrite IH. reflexivity.
  - rewrite filter_insert_out by exact Px. exact IH.
Qed.
End StableSortFacts.

Lemma StronglySorted_nth {A : Type} (R : A -> A -> Prop) (l : list A) :
  StronglySorted R l ->
  forall i j a b, (i < j)%nat -> nth_error l i = Some a -> nth_error l j = Some b -> R a b.
Proof.
  induction 1 as [|x l S IH F]; intros i j a b Hij Hi Hj.
  - destruct i; discriminate.
  - destruct j as [|j]; [lia|]. destruct i as [|i].
    + simpl in Hi, Hj. injection Hi as <-.
      rewrite Forall_forall in F. apply F. eapply nth_error_In. exact Hj.
    + simpl in Hi, Hj. apply (IH i j); auto. lia.
Qed.

(** ** Sorting by TTK *)

Lemma ttk_key_cases (range : string) (w : weapon) :
  (ttk_key range w = None /\ or_inf (ttk_key range w) = PInf) \/
  exists q, ttk_key range w = Some (Fin q) /\ ~ q == 0 /\ or_inf (ttk_key range w) = Fin q.
Proof.
  unfold ttk_key.
  destruct (calculateTTK_shape (Some (js_parseFloat (wget w range)))
                               (Some (js_parseFloat (wget w "RPM")))) as [E|[q [E Hq]]];
    rewrite E; [left; auto | right].
  exists q. repeat split; [exact Hq|]. simpl.
  destruct (Qeq_bool q 0) eqn:Z; [apply Qeq_bool_iff in Z; contradiction | reflexivity].
Qed.

(** ** Weapon types *)

Lemma ci_immune (wt : string) :
  is_immune_type wt = ci_eq wt "Sniper Rifle" || ci_eq wt "Shotgun".
Proof. reflexivity. Qed.

(** ** Near-range floor *)

Lemma qmax_ge_l (a b : Q) : a <= qmax a b.
Proof.
  unfold qmax. destruct (Qle_bool a b) eqn:E; [apply Qle_bool_iff; exact E | apply Qle_refl].
Qed.

(** ** Unknown values *)

Lemma parseNumeric_None_iff (v : jsval) :
  parseNumeric v = None <->
  v = JNull \/ v = JUndef \/ v = JStr "" \/ nisNaN (js_parseFloat v) = true.
Proof.
  destruct v as [ | | b | n | [ | c s]]; simpl;
    try (split; [intros _; auto | reflexivity]).
  all: match goal with |- context [nisNaN ?x] => destruct (nisNaN x) eqn:E end;
    split; intro H; try discriminate; auto;
    repeat destruct H as [H|H]; discriminate.
Qed.

Lemma parseNumeric_Some (v : jsval) (x : num) :
  parseNumeric v = Some x -> x = js_parseFloat v /\ nisNaN x = false.
Proof.
  destruct v as [ | | b | n | [ | c s]]; simpl; try discriminate;
    match goal with |- context [nisNaN ?y] => destruct (nisNaN y) eqn:E end;
    intro H; try discriminate; injection H as <-; auto.
Qed.

Lemma wget_range (w : weapon) (range : string) :
  is_range range = true -> wget w range = of_opt (wdamage w range).
Proof.
  intro H. unfold wget.
  destruct (String.eqb range "Weapon Type") eqn:E1;
    [apply String.eqb_eq in E1; subst; discriminate|].
  destruct (String.eqb range "Weapon") eqn:E2;
    [apply String.eqb_eq in E2; subst; discriminate|].
  rewrite H. reflexivity.
Qed.

Lemma getDamageDropoff_unknown (w : weapon) (s e : string) :
  is_range s = true -> is_range e = true ->
  wdamage w s = None \/ wdamage w e = None -> getDamageDropoff w s e = None.
Proof.
  intros Hs He H. unfold getDamageDropoff. rewrite (wget_range w s Hs), (wget_range w e He).
  destruct H as [H|H]; rewrite H; simpl; [reflexivity|].
  rewrite orb_true_r. reflexivity.
Qed.

Lemma recoil_unknown (d r : option num) (precision control : num) (range wt : string) :
  d = None \/ r = None -> calculateRecoilAdjustedTTK d r precision control range wt = None.
Proof.
  intro H. unfold calculateRecoilAdjustedTTK.
  destruct H as [ -> | -> ]; [reflexivity | destruct d; reflexivity].
Qed.

(** * Properties of the specification *)

(** C2: the normalizer stores a per-range damage of ["33"] as [33]; no
    [33.5] correction is applied. *)
Lemma processWeaponData_keeps_33 :
  map w_10M (processWeaponData [sample_row]) = [Some (Fin 33)].
Proof. vm_compute. reflexivity. Qed.

(** C6: an end damage of [0] makes [getDamageDropoff] return [null] (the
    guard [!endDamage] treats [0] as missing), where the drop-off is
    [100]; from [50] to [25] the result is [50]. *)
Lemma getDamageDropoff_zero_end :
  w_10M (nth 1 sample_weapons no_weapon) = Some (Fin 50) /\
  w_70M (nth 1 sample_weapons no_weapon) = Some (Fin 0) /\
  getDamageDropoff (nth 1 sample_weapons no_weapon) "10M" "70M" = None /\
  getDamageDropoff (nth 0 shotgun_weapons no_weapon) "10M" "70M" = Some (Fin 50).
Proof. vm_compute. repeat split. Qed.

(** C7: [parseNumeric] gives unknown ([null]) exactly for [null],
    [undefined], [''] and values whose [parseFloat] is [NaN]; otherwise it
    gives [parseFloat]'s value, which is never [NaN] but may be infinite or
    read from a prefix of the text. It is total (never throws), and unknown
    is never reported as [0]. An unknown damage or RPM makes [calculateTTK],
    [calculateRecoilAdjustedTTK], [calculateShotsToKill] and
    [getDamageDropoff] return [null]. *)
Theorem parseNumeric_spec :
  (forall v, parseNumeric v = None <->
             v = JNull \/ v = JUndef \/ v = JStr "" \/ nisNaN (js_parseFloat v) = true) /\
  (forall v x, parseNumeric v = Some x -> x = js_parseFloat v /\ nisNaN x = false) /\
  (forall x a, calculateTTK None x a = None /\ calculateTTK x None a = None) /\
  (forall d r precision control range wt, d = None \/ r = None ->
     calculateRecoilAdjustedTTK d r precision control range wt = None) /\
  calculateShotsToKill None = None /\
  (forall w s e, is_range s = true -> is_range e = true ->
     wdamage w s = None \/ wdamage w e = None -> getDamageDropoff w s e = None).
Proof.
  split; [exact parseNumeric_None_iff|]. split; [exact parseNumeric_Some|].
  split; [intros [x|] a; split; reflexivity|].
  split; [exact recoil_unknown|]. split; [reflexivity|].
  exact getDamageDropoff_unknown.
Qed.

Lemma parseNumeric_spec_witness : getDamageDropoff no_weapon "10M" "70M" = None.
Proof.
  exact (proj2 (proj2 (proj2 (proj2 (proj2 parseNumeric_spec)))) no_weapon "10M" "70M"
           ltac:(reflexivity) ltac:(reflexivity) ltac:(left; reflexivity)).
Defined.

(** C7: text with trailing garbage and [Infinity] are known numbers. *)
Lemma parseNumeric_lenient :
  parseNumeric (JStr "12abc") = Some (Fin 12) /\ parseNumeric (JStr "Infinity") = Some PInf.
Proof. split; vm_compute; reflexivity. Qed.

(** C8: for a type whose records have no known RPM, the RPM block is still
    reported, as [{min: Infinity, max: -Infinity, avg: NaN}]. *)
Lemma getWeaponTypeStats_unknown_rpm :
  option_map ts_rpm (getWeaponTypeStats shotgun_weapons "Shotgun")
  = Some (mkRpmStats PInf NInf NaN).
Proof. vm_compute. reflexivity. Qed.

(** * Further properties of the code *)

(** ** Helpers on rationals *)

Lemma Qle_bool_false_lt (a b : Q) : Qle_bool a b = false -> b < a.
Proof. intro H. apply Qnot_le_lt. intro H'. apply Qle_bool_iff in H'. congruence. Qed.

Ltac qle_cases :=
  repeat match goal with
         | |- context [Qle_bool ?a ?b] =>
             lazymatch a with context [Qle_bool _ _] => fail | _ => idtac end;
             lazymatch b with context [Qle_bool _ _] => fail | _ => idtac end;
             let E := fresh "E" in
             destruct (Qle_bool a b) eqn:E;
             [apply Qle_bool_iff in E | apply Qle_bool_false_lt in E]
         end.

(** ** Range accuracy *)

Lemma clampQ_mono (x y : Q) : x <= y \/ x <= 5 # 100 -> clampQ x <= clampQ y.
Proof. intro H. unfold clampQ, qmin, qmax. destruct H; qle_cases; lra. Qed.

Lemma scaled_hit_le (c m1 m2 : Q) :
  0 <= m2 -> m2 <= m1 -> c * m2 <= c * m1 \/ c * m2 <= 5 # 100.
Proof.
  intros H0 H1. destruct (Qlt_le_dec c 0) as [Hc|Hc].
  - right. assert (H2 : 0 <= - c * m2) by (apply Qmult_le_0_compat; lra).
    assert (H3 : c * m2 == - (- c * m2)) by ring. lra.
  - left. rewrite !(Qmult_comm c). apply Qmult_le_compat_r; assumption.
Qed.

Lemma hit_prob_anti (precision control : Q) (r1 r2 : string) :
  r1 = r2 \/
  (String.eqb r2 "10M" = false /\ 0 <= rangeMultiplierQ r2 /\
   rangeMultiplierQ r2 <= rangeMultiplierQ r1) ->
  spec_hit_probability precision control r2 <= spec_hit_probability precision control r1.
Proof.
  intros [ -> | [H10 [Hm0 Hm]]]; [apply Qle_refl|].
  unfold spec_hit_probability, computed_hit. cbv zeta. rewrite H10.
  change (qmin 1 (qmax (5 # 100) ?x)) with (clampQ x).
  set (c := precision / 100 * (control / 100)).
  destruct (String.eqb r1 "10M") eqn:E1; apply clampQ_mono.
  - apply String.eqb_eq in E1. subst r1. simpl rangeMultiplierQ in *.
    destruct (scaled_hit_le c 1 (rangeMultiplierQ r2) Hm0 Hm) as [H|H]; [left|right; exact H].
    apply (Qle_trans _ (c * 1)); [exact H | apply qmax_ge_l].
  - apply scaled_hit_le; assumption.
Qed.

(** ** Properties of the metric calculator *)

(** X3: the recoil hit probability never grows with distance: for finite
    precision and control, the probability at a range of [RANGES] is at most
    the one at any nearer range of [RANGES]. *)
Theorem hit_probability_range_monotone (precision control : Q) (i j : nat) :
  (i <= j < 5)%nat ->
  exists pi pj,
    recoil_hit_probability (Fin precision) (Fin control) (nth i RANGES "") = Fin pi /\
    recoil_hit_probability (Fin precision) (Fin control) (nth j RANGES "") = Fin pj /\
    pj <= pi.
Proof.
  intro H. rewrite !hit_probability_fin.
  eexists _, _. split; [reflexivity | split; [reflexivity|]].
  rewrite !Qred_correct. apply hit_prob_anti. unfold RANGES.
  destruct i as [|[|[|[|[|i]]]]]; destruct j as [|[|[|[|[|j]]]]]; try lia;
    unfold rangeMultiplierQ; simpl;
    first [left; reflexivity | right; split; [reflexivity | split; lra]].
Qed.

Lemma hit_probability_range_monotone_witness :
  exists pi pj,
    recoil_hit_probability (Fin 80) (Fin 90) (nth 0 RANGES "") = Fin pi /\
    recoil_hit_probability (Fin 80) (Fin 90) (nth 4 RANGES "") = Fin pj /\
    pj <= pi.
Proof. apply (hit_probability_range_monotone 80 90 0%nat 4%nat). lia. Defined.

(** ** Sorting by a descending metric *)

Lemma or_zero_not_NaN (n : num) : nisNaN (or_zero n) = false.
Proof.
  unfold or_zero. destruct (ntruthy n) eqn:E; [|reflexivity].
  destruct n; [reflexivity | reflexivity | reflexivity | discriminate].
Qed.

Lemma nsub_pos_lt (x y : num) :
  nisNaN x = false -> nisNaN y = false -> nlt (Fin 0) (nsub y x) = nlt x y.
Proof.
  destruct x as [x| | |], y as [y| | |]; intros Hx Hy; try discriminate; try reflexivity.
  unfold nsub, nneg, nadd, fin, nlt, qlt. apply f_equal.
  rewrite <- (Qle_bool_sub y x). apply Qleb_comp; [|reflexivity].
  rewrite !Qred_correct. reflexivity.
Qed.

Lemma nlt_nneg (x y : num) :
  nisNaN x = false -> nisNaN y = false -> nlt (nneg x) (nneg y) = nlt y x.
Proof.
  destruct x as [x| | |], y as [y| | |]; intros Hx Hy; try discriminate; try reflexivity.
  unfold nneg, fin, nlt, qlt. apply f_equal. rewrite Qle_bool_red.
  destruct (Qle_bool x y) eqn:E.
  - apply Qle_bool_iff in E. apply Qle_bool_iff. lra.
  - apply Qle_bool_false_lt in E.
    destruct (Qle_bool (- y) (- x)) eqn:F; [|reflexivity].
    apply Qle_bool_iff in F. lra.
Qed.

Lemma nneg_not_NaN (x : num) : nisNaN x = false -> nisNaN (nneg x) = false.
Proof. destruct x; simpl; auto. Qed.

Lemma metric_goes_after (sortBy range : string) (a b : weapon) :
  descending_metric sortBy ->
  goes_after (compare_weapons sortBy range) a b
  = nlt (nneg (metric_value sortBy range b)) (nneg (metric_value sortBy range a)).
Proof.
  intro H. rewrite nlt_nneg by apply or_zero_not_NaN.
  unfold goes_after, compare_weapons, metric_value.
  destruct H as [ -> | [ -> | -> ]]; cbn -[wget js_parseFloat or_zero nsub nlt];
    apply nsub_pos_lt; apply or_zero_not_NaN.
Qed.

Lemma strict_eq_same_nlt (a b v : num) :
  nstrict_eq a v = true -> nstrict_eq b v = true -> nlt a b = false.
Proof.
  destruct a as [a| | |], b as [b| | |], v as [v| | |]; simpl; try discriminate; try reflexivity.
  intros Ha Hb. apply Qeq_bool_iff in Ha, Hb. apply qlt_false. rewrite Ha, Hb. apply Qle_refl.
Qed.

Lemma key_le_desc {A : Type} (m : A -> num) (a b : A) :
  (forall x, nisNaN (m x) = false) ->
  key_le (fun w => nneg (m w)) a b <-> nlt (m a) (m b) = false.
Proof. intro H. unfold key_le. rewrite nlt_nneg by apply H. reflexivity. Qed.

Lemma StronglySorted_app {A : Type} (R : A -> A -> Prop) (l1 l2 : list A) :
  StronglySorted R (l1 ++ l2) ->
  StronglySorted R l1 /\ StronglySorted R l2 /\ forall a b, In a l1 -> In b l2 -> R a b.
Proof.
  induction l1 as [|x l1 IH]; simpl; intro S.
  - split; [constructor | split; [exact S | intros a b []]].
  - apply StronglySorted_inv in S. destruct S as [S F].
    destruct (IH S) as [S1 [S2 S3]]. rewrite Forall_forall in F.
    split; [|split; [exact S2|]].
    + constructor; [exact S1|]. apply Forall_forall. intros y Hy. apply F, in_or_app. left; exact Hy.
    + intros a b [<- | Ha] Hb; [apply F, in_or_app; right; exact Hb | apply S3; assumption].
Qed.

Lemma firstn_sorted_top {A : Type} (cmp : A -> A -> num) (key : A -> num)
    (GA : forall a b, goes_after cmp a b = nlt (key b) (key a))
    (KN : forall a, nisNaN (key a) = false) (l : list A) (n : nat) :
  length (firstn n (stable_sort cmp l)) = Nat.min n (length l) /\
  StronglySorted (key_le key) (firstn n (stable_sort cmp l)) /\
  exists rest, Permutation l (firstn n (stable_sort cmp l) ++ rest) /\
    forall a b, In a (firstn n (stable_sort cmp l)) -> In b rest -> key_le key a b.
Proof.
  pose proof (stable_sort_perm cmp l) as P.
  pose proof (stable_sort_sorted cmp key GA KN l) as S.
  rewrite <- (firstn_skipn n (stable_sort cmp l)) in S.
  apply StronglySorted_app in S. destruct S as [S1 [_ S3]].
  split; [rewrite length_firstn, <- (Permutation_length P); reflexivity|].
  split; [exact S1|].
  exists (skipn n (stable_sort cmp l)). split; [rewrite firstn_skipn; exact P | exact S3].
Qed.

Lemma insert_sorted_neutral {A : Type} (cmp : A -> A -> num) (x : A) (l : list A) :
  (forall a b, cmp a b = Fin 0) -> insert_sorted cmp x l = x :: l.
Proof.
  intro H. destruct l as [|y l]; simpl; [reflexivity|].
  unfold goes_after. rewrite H. reflexivity.
Qed.

(** X6: sorting by ["damage"], ["rpm"] or ["dps"] returns a permutation of
    the input in which the metric [parseFloat(w[field]) || 0] never
    increases from one weapon to a later one, and weapons with the same
    metric value keep their input order. *)
Theorem sortWeapons_descending (ws : list weapon) (sortBy range : string) :
  descending_metric sortBy ->
  Permutation ws (sortWeapons ws sortBy range) /\
  (forall i j a b, (i < j)%nat ->
     nth_error (sortWeapons ws sortBy range) i = Some a ->
     nth_error (sortWeapons ws sortBy range) j = Some b ->
     nlt (metric_value sortBy range a) (metric_value sortBy range b) = false) /\
  (forall v : num,
     filter (fun w => nstrict_eq (metric_value sortBy range w) v) (sortWeapons ws sortBy range)
     = filter (fun w => nstrict_eq (metric_value sortBy range w) v) ws).
Proof.
  intro H. set (key := fun w => nneg (metric_value sortBy range w)).
  assert (GA : forall a b, goes_after (compare_weapons sortBy range) a b = nlt (key b) (key a))
    by (intros; apply metric_goes_after; exact H).
  assert (KN : forall a, nisNaN (key a) = false)
    by (intro; apply nneg_not_NaN, or_zero_not_NaN).
  unfold sortWeapons. split; [apply stable_sort_perm | split].
  - intros i j a b Hij Ha Hb.
    pose proof (StronglySorted_nth _ _ (stable_sort_sorted _ key GA KN ws) i j a b Hij Ha Hb) as K.
    apply (key_le_desc (metric_value sortBy range)) in K; [exact K | intro; apply or_zero_not_NaN].
  - intro v. apply (stable_sort_filter _ key GA). intros x y Hx Hy.
    unfold key. rewrite nlt_nneg by apply or_zero_not_NaN.
    exact (strict_eq_same_nlt _ _ v Hx Hy).
Qed.

Lemma sortWeapons_descending_witness :
  Permutation sample_weapons (sortWeapons sample_weapons "damage" "10M").
Proof.
  exact (proj1 (sortWeapons_descending sample_weapons "damage" "10M" (or_introl eq_refl))).
Defined.

(** X7: a sort key other than ["ttk"], ["damage"], ["rpm"] and ["dps"]
    (these are matched case-sensitively) makes the comparator [0], and
    [sortWeapons] returns the weapons in their input order. *)
Theorem sortWeapons_unknown_key (ws : list weapon) (sortBy range : string) :
  ~ In sortBy ["ttk"; "damage"; "rpm"; "dps"] -> sortWeapons ws sortBy range = ws.
Proof.
  intro H.
  assert (C : forall a b, compare_weapons sortBy range a b = Fin 0).
  { intros a b. unfold compare_weapons.
    destruct (String.eqb sortBy "ttk") eqn:E1;
      [apply String.eqb_eq in E1; subst; exfalso; apply H; simpl; tauto|].
    destruct (String.eqb sortBy "damage") eqn:E2;
      [apply String.eqb_eq in E2; subst; exfalso; apply H; simpl; tauto|].
    destruct (String.eqb sortBy "rpm") eqn:E3;
      [apply String.eqb_eq in E3; subst; exfalso; apply H; simpl; tauto|].
    destruct (String.eqb sortBy "dps") eqn:E4;
      [apply String.eqb_eq in E4; subst; exfalso; apply H; simpl; tauto|].
    reflexivity. }
  unfold sortWeapons. induction ws as [|x ws IH]; simpl; [reflexivity|].
  rewrite IH. apply insert_sorted_neutral. exact C.
Qed.

Lemma sortWeapons_unknown_key_witness :
  sortWeapons sample_weapons "TTK" "10M" = sample_weapons.
Proof.
  apply sortWeapons_unknown_key. simpl. intros [E|[E|[E|[E|[]]]]]; discriminate.
Defined.

(** ** Top-N queries of js/data.js *)

(** X9: for metric ["damage"], ["rpm"] or ["dps"], [getTopWeapons(n,
    metric, range)] returns [min(n, v)] weapons, where [v] counts the weapons
    its filter keeps (DPS not [null] for ["dps"], RPM not [null] for
    ["rpm"], damage at [range] and RPM not [null] for ["damage"]); each is
    such a weapon, the metric [parseFloat(w[field]) || 0] never increases
    along the list, and no weapon left out has a larger metric than a
    returned one. *)
Theorem getTopWeapons_spec (ws : list weapon) (n : nat) (metric range : string) :
  descending_metric metric ->
  let valid := filter (top_valid metric range) ws in
  let res := getTopWeapons ws n metric range in
  length res = Nat.min n (length valid) /\
  (forall w, In w res -> In w ws /\ top_valid metric range w = true) /\
  (forall i j a b, (i < j)%nat -> nth_error res i = Some a -> nth_error res j = Some b ->
     nlt (metric_value metric range a) (metric_value metric range b) = false) /\
  (exists rest, Permutation valid (res ++ rest) /\
     forall a b, In a res -> In b rest ->
       nlt (metric_value metric range a) (metric_value metric range b) = false).
Proof.
  intro H. cbv zeta. set (key := fun w => nneg (metric_value metric range w)).
  assert (GA : forall a b, goes_after (compare_weapons metric range) a b = nlt (key b) (key a))
    by (intros; apply metric_goes_after; exact H).
  assert (KN : forall a, nisNaN (key a) = false)
    by (intro; apply nneg_not_NaN, or_zero_not_NaN).
  assert (MN : forall a, nisNaN (metric_value metric range a) = false)
    by (intro; apply or_zero_not_NaN).
  destruct (firstn_sorted_top (compare_weapons metric range) key GA KN
              (filter (top_valid metric range) ws) n) as [L [S [rest [P T]]]].
  unfold getTopWeapons, sortWeapons.
  split; [exact L|]. split; [|split].
  - intros w Hw.
    assert (Hv : In w (filter (top_valid metric range) ws))
      by (apply (Permutation_in _ (Permutation_sym P)), in_or_app; left; exact Hw).
    apply filter_In in Hv. exact Hv.
  - intros i j a b Hij Ha Hb. apply (key_le_desc _ a b MN).
    exact (StronglySorted_nth _ _ S i j a b Hij Ha Hb).
  - exists rest. split; [exact P|]. intros a b Ha Hb. apply (key_le_desc _ a b MN). exact (T a b Ha Hb).
Qed.

Lemma getTopWeapons_spec_witness :
  length (getTopWeapons sample_weapons 2 "rpm" "10M")
  = Nat.min 2 (length (filter (top_valid "rpm" "10M") sample_weapons)).
Proof.
  exact (proj1 (getTopWeapons_spec sample_weapons 2 "rpm" "10M" (or_intror (or_introl eq_refl)))).
Defined.

(** ** Completeness and the statistics summary *)

Lemma filter_partition {A : Type} (f : A -> bool) (l : list A) :
  Permutation l (filter f l ++ filter (fun x => negb (f x)) l).
Proof.
  induction l as [|x l IH]; simpl; [reflexivity|].
  destruct (f x); simpl; [constructor; exact IH | apply Permutation_cons_app; exact IH].
Qed.

(** X10: [getCompleteWeapons] and [getIncompleteWeapons] split the data: together
    they are a rearrangement of it, and their sizes are the [complete] and
    [incomplete] counts of [getWeaponStatistics], whose [total] is their sum. *)
Theorem complete_incomplete_partition (ws : list weapon) :
  Permutation ws (getCompleteWeapons ws ++ getIncompleteWeapons ws) /\
  length (getCompleteWeapons ws) = os_complete (getWeaponStatistics ws) /\
  length (getIncompleteWeapons ws) = os_incomplete (getWeaponStatistics ws) /\
  os_total (getWeaponStatistics ws)
  = (os_complete (getWeaponStatistics ws) + os_incomplete (getWeaponStatistics ws))%nat.
Proof.
  pose proof (filter_partition isWeaponDataComplete ws) as P.
  pose proof (Permutation_length P) as L. rewrite length_app in L.
  unfold getCompleteWeapons, getIncompleteWeapons, getWeaponStatistics. simpl.
  split; [exact P|]. split; [reflexivity|]. split; lia.
Qed.

(** ** Weapon type lists *)

Lemma existsb_eqb_In (x : string) (l : list string) : existsb (String.eqb x) l = true <-> In x l.
Proof.
  rewrite existsb_exists. split.
  - intros [y [Hy E]]. apply String.eqb_eq in E. subst. exact Hy.
  - intro H. exists x. split; [exact H | apply String.eqb_refl].
Qed.

Lemma dedup_strings_In (seen xs : list string) (x : string) :
  In x (dedup_strings seen xs) <-> In x xs /\ ~ In x seen.
Proof.
  revert seen. induction xs as [|y xs IH]; intro seen; simpl; [tauto|].
  destruct (existsb (String.eqb y) seen) eqn:E.
  - apply existsb_eqb_In in E. rewrite IH. split; [tauto|].
    intros [[<- | H1] H2]; [contradiction | tauto].
  - assert (E' : ~ In y seen) by (intro H; apply existsb_eqb_In in H; congruence).
    simpl. rewrite IH. simpl. split.
    + intros [<- | [H1 H2]]; [tauto | tauto].
    + intros [[<- | H1] H2]; [tauto|].
      destruct (String.eqb_spec y x) as [<- | N]; [tauto | right; tauto].
Qed.

Lemma dedup_strings_NoDup (seen xs : list string) : NoDup (dedup_strings seen xs).
Proof.
  revert seen. induction xs as [|y xs IH]; intro seen; simpl; [constructor|].
  destruct (existsb (String.eqb y) seen); [apply IH|].
  constructor; [|apply IH]. rewrite dedup_strings_In. simpl. tauto.
Qed.

Section StableSortRel.
Context {A : Type} (cmp : A -> A -> num) (R : A -> A -> Prop).
Hypothesis after_R : forall x y, goes_after cmp x y = true -> R y x.
Hypothesis not_after_R : forall x y, goes_after cmp x y = false -> R x y.
Hypothesis R_trans : forall x y z, R x y -> R y z -> R x z.

Lemma insert_sorted_rel (x : A) (l : list A) :
  Sorted R l -> Sorted R (insert_sorted cmp x l).
Proof.
  induction l as [|y l IH]; simpl; intro S; [repeat constructor|].
  destruct (goes_after cmp x y) eqn:G.
  - apply Sorted_inv in S. destruct S as [S H].
    constructor; [exact (IH S)|].
    destruct l as [|z l]; simpl.
    + constructor. apply after_R. exact G.
    + destruct (goes_after cmp x z); constructor.
      * inversion H; assumption.
      * apply after_R. exact G.
  - constructor; [exact S | constructor; apply not_after_R; exact G].
Qed.

Lemma stable_sort_rel (l : list A) : StronglySorted R (stable_sort cmp l).
Proof.
  apply Sorted_StronglySorted; [exact R_trans|].
  induction l as [|x l IH]; simpl; [constructor|].
  apply insert_sorted_rel. exact IH.
Qed.
End StableSortRel.

Lemma string_cmp_after (a b : string) :
  goes_after string_cmp a b = match String_as_OT.compare a b with Gt => true | _ => false end.
Proof. unfold goes_after, string_cmp. destruct (String_as_OT.compare a b); reflexivity. Qed.

Lemma string_lt_trans (a b c : string) :
  String_as_OT.lt a b -> String_as_OT.lt b c -> String_as_OT.lt a c.
Proof. apply (StrictOrder_Transitive (R := String_as_OT.lt)). Qed.

Lemma stable_sort_strings (l : list string) :
  NoDup l -> StronglySorted String_as_OT.lt (stable_sort string_cmp l).
Proof.
  intro N.
  assert (S : StronglySorted (fun a b => a = b \/ String_as_OT.lt a b) (stable_sort string_cmp l)).
  { apply stable_sort_rel.
    - intros x y G. rewrite string_cmp_after in G. right.
      destruct (String_as_OT.compare_spec x y); [discriminate | discriminate | assumption].
    - intros x y G. rewrite string_cmp_after in G.
      destruct (String_as_OT.compare_spec x y); [left; assumption | right; assumption | discriminate].
    - intros x y z [<- | H1] [<- | H2]; auto. right. exact (string_lt_trans _ _ _ H1 H2). }
  assert (N' : NoDup (stable_sort string_cmp l))
    by exact (Permutation_NoDup (stable_sort_perm string_cmp l) N).
  clear N. induction S as [|x l' S IH F]; constructor.
  - apply IH. inversion N'; assumption.
  - inversion N' as [|x' l'' Nx N'']. subst.
    rewrite Forall_forall in F |- *. intros y Hy.
    destruct (F y Hy) as [E | H]; [subst; contradiction | exact H].
Qed.

(** X11: [getWeaponTypes()] lists each non-empty weapon type of the data
    exactly once, in increasing code-unit order, and nothing else. *)
Theorem getWeaponTypes_spec (ws : list weapon) :
  NoDup (getWeaponTypes ws) /\
  StronglySorted String_as_OT.lt (getWeaponTypes ws) /\
  forall t, In t (getWeaponTypes ws) <-> t <> "" /\ exists w, In w ws /\ w_type w = t.
Proof.
  unfold getWeaponTypes.
  pose proof (NoDup_filter nonempty (dedup_strings_NoDup [] (map w_type ws))) as N.
  pose proof (stable_sort_perm string_cmp (filter nonempty (dedup_strings [] (map w_type ws)))) as P.
  split; [exact (Permutation_NoDup P N)|]. split; [exact (stable_sort_strings _ N)|].
  intro t. split.
  - intro H. apply (Permutation_in _ (Permutation_sym P)) in H.
    apply filter_In in H. destruct H as [H E]. apply dedup_strings_In in H.
    destruct H as [H _]. apply in_map_iff in H. destruct H as [w [Ew Hw]].
    split; [|exists w; split; assumption].
    intro Z. subst. unfold nonempty in E. rewrite Z in E. discriminate.
  - intros [Ht [w [Hw Ew]]]. apply (Permutation_in _ P). apply filter_In. split.
    + apply dedup_strings_In. split; [|intros []]. apply in_map_iff. exists w. split; assumption.
    + unfold nonempty. destruct (String.eqb_spec t ""); [contradiction | reflexivity].
Qed.

(** X12: the [typesList] of [getWeaponStatistics] names each weapon type
    of the list exactly once (the empty type included) and nothing else, and
    [types] is its length. *)
Theorem getWeaponStatistics_types (ws : list weapon) :
  NoDup (os_typesList (getWeaponStatistics ws)) /\
  os_types (getWeaponStatistics ws) = length (os_typesList (getWeaponStatistics ws)) /\
  (forall t, In t (os_typesList (getWeaponStatistics ws)) <-> exists w, In w ws /\ w_type w = t).
Proof.
  unfold getWeaponStatistics. cbn [os_typesList os_types].
  split; [apply dedup_strings_NoDup | split; [reflexivity|]].
  intro t. rewrite dedup_strings_In, in_map_iff. simpl.
  split; [intros [[w [E H]] _]; exists w; split; assumption|].
  intros [w [H E]]. split; [exists w; split; assumption | intros []].
Qed.

(** ** Filters *)

Lemma searchWeapons_incl (ws : list weapon) (s : option string) :
  incl (searchWeapons ws s) ws.
Proof.
  intros w Hw. unfold searchWeapons in Hw. destruct s as [s|]; [|exact Hw].
  destruct (String.eqb s "" || String.eqb (trim s) ""); [exact Hw|].
  apply filter_In in Hw. exact (proj1 Hw).
Qed.

Lemma filter_filter_and {A : Type} (P Q : A -> bool) (l : list A) :
  filter P (filter Q l) = filter (fun x => Q x && P x) l.
Proof.
  induction l as [|x l IH]; simpl; [reflexivity|].
  destruct (Q x); simpl; [destruct (P x); simpl; rewrite IH; reflexivity | exact IH].
Qed.

Lemma filter_all {A : Type} (l : list A) : filter (fun _ => true) l = l.
Proof. induction l as [|x l IH]; simpl; [reflexivity | rewrite IH; reflexivity]. Qed.

Lemma filter_idem {A : Type} (P : A -> bool) (l : list A) : filter P (filter P l) = filter P l.
Proof.
  rewrite filter_filter_and. apply filter_ext. intro x. apply andb_diag.
Qed.

Lemma In_if_filter {A : Type} (b : bool) (P : A -> bool) (l : list A) (x : A) :
  In x (if b then filter P l else l) -> In x l.
Proof. destruct b; [intro H; apply filter_In in H; exact (proj1 H) | exact id]. Qed.

Lemma applyFilters_as_filter (f : filters) :
  exists P, forall ws, applyFilters ws f = filter P ws.
Proof.
  destruct f as [ty se co mi ma]. unfold applyFilters, filterWeaponsByType, searchWeapons.
  cbv zeta. cbn [f_types f_search f_completeOnly f_minRPM f_maxRPM].
  destruct ty as [ts|]; destruct se as [s|];
    repeat match goal with
           | |- context [if ?b then _ else _] => destruct b
           end;
    repeat setoid_rewrite filter_filter_and;
    first [ exists (fun _ => true); intro; symmetry; apply filter_all
          | eexists; intro; reflexivity ].
Qed.

(** X14: [applyFilters] with no filter set returns the data; in general it
    returns weapons of the data in their order, applying it again to its
    result changes nothing, and each returned weapon passes every active
    filter: its type is one of a non-empty type list without ["ALL"], it is
    complete under [completeOnly], and its RPM is known and not below a
    non-zero [minRPM] nor above a non-zero [maxRPM]. *)
Theorem applyFilters_spec (ws : list weapon) (f : filters) :
  applyFilters ws (mkFilters None None false None None) = ws /\
  (exists P, applyFilters ws f = filter P ws) /\
  applyFilters (applyFilters ws f) f = applyFilters ws f /\
  (forall ts, f_types f = Some ts -> ts <> [] -> ~ In "ALL" ts ->
     forall w, In w (applyFilters ws f) -> In (w_type w) ts) /\
  (f_completeOnly f = true -> forall w, In w (applyFilters ws f) -> isWeaponDataComplete w = true) /\
  (forall m, f_minRPM f = Some (Fin m) -> ~ m == 0 ->
     forall w, In w (applyFilters ws f) -> exists r, w_RPM w = Some r /\ nlt r (Fin m) = false) /\
  (forall m, f_maxRPM f = Some (Fin m) -> ~ m == 0 ->
     forall w, In w (applyFilters ws f) -> exists r, w_RPM w = Some r /\ nlt (Fin m) r = false).
Proof.
  destruct (applyFilters_as_filter f) as [P HP].
  assert (Rpm : forall w, In w (applyFilters ws f) ->
                  opt_truthy (f_minRPM f) || opt_truthy (f_maxRPM f) = true ->
                  rpm_in_bounds f w = true).
  { intros w Hw T. unfold applyFilters in Hw. cbv zeta in Hw. rewrite T in Hw.
    apply filter_In in Hw. exact (proj2 Hw). }
  assert (Rb : forall m w, In w (applyFilters ws f) ->
                 (f_minRPM f = Some (Fin m) \/ f_maxRPM f = Some (Fin m)) -> ~ m == 0 ->
                 exists r, w_RPM w = Some r /\
                   negb (opt_truthy (f_minRPM f) && nlt r (ttk_or_0 (f_minRPM f))) = true /\
                   negb (opt_truthy (f_maxRPM f) && nlt (ttk_or_0 (f_maxRPM f)) r) = true).
  { intros m w Hw Hm Hm0.
    assert (T : opt_truthy (f_minRPM f) || opt_truthy (f_maxRPM f) = true).
    { destruct Hm as [Hm|Hm]; rewrite Hm; simpl; rewrite (Qeq_bool_false _ _ Hm0);
        [reflexivity | apply orb_true_r]. }
    pose proof (Rpm w Hw T) as B. unfold rpm_in_bounds in B.
    destruct (w_RPM w) as [r|]; [|discriminate].
    apply andb_prop in B. exists r. split; [reflexivity | exact B]. }
  split; [reflexivity|]. split; [exists P; apply HP|]. split.
  { rewrite !HP. apply filter_idem. }
  split; [|split; [|split]].
  - intros ts Hts Hne Hall w Hw. unfold applyFilters in Hw. cbv zeta in Hw.
    rewrite Hts in Hw.
    assert (C : negb (length ts =? 0)%nat && negb (existsb (String.eqb "ALL") ts) = true).
    { destruct ts as [|t ts]; [contradiction|].
      destruct (existsb (String.eqb "ALL") (t :: ts)) eqn:E; [|reflexivity].
      apply existsb_eqb_In in E. contradiction. }
    rewrite C in Hw. unfold filterWeaponsByType in Hw.
    replace ((length ts =? 0)%nat || existsb (String.eqb "ALL") ts) with false in Hw
      by (apply andb_prop in C; destruct C as [C1 C2];
          apply negb_true_iff in C1, C2; rewrite C1, C2; reflexivity).
    apply In_if_filter, In_if_filter in Hw.
    destruct (f_search f) as [s|]; [destruct (String.eqb s "")|];
      try apply searchWeapons_incl in Hw;
      apply filter_In in Hw; apply existsb_eqb_In; exact (proj2 Hw).
  - intros C w Hw. unfold applyFilters in Hw. cbv zeta in Hw. rewrite C in Hw.
    apply In_if_filter in Hw. apply filter_In in Hw. exact (proj2 Hw).
  - intros m Hm Hm0 w Hw. destruct (Rb m w Hw (or_introl Hm) Hm0) as [r [Er [B _]]].
    exists r. split; [exact Er|]. rewrite Hm in B. simpl in B.
    rewrite (Qeq_bool_false _ _ Hm0) in B. simpl in B. apply negb_true_iff in B. exact B.
  - intros m Hm Hm0 w Hw. destruct (Rb m w Hw (or_intror Hm) Hm0) as [r [Er [_ B]]].
    exists r. split; [exact Er|]. rewrite Hm in B. simpl in B.
    rewrite (Qeq_bool_false _ _ Hm0) in B. simpl in B. apply negb_true_iff in B. exact B.
Qed.

(** ** Best weapon at a range *)

Lemma ttk_or_0_fin (range : string) (w : weapon) :
  exists q, ttk_or_0 (ttk_key range w) = Fin q.
Proof.
  destruct (ttk_key_cases range w) as [[E _]|[q [E _]]]; rewrite E;
    [exists 0 | exists q]; reflexivity.
Qed.

Lemma fold_best_min (range : string) (rest : list weapon) (b : weapon) :
  let k := fun w => ttk_or_0 (ttk_key range w) in
  let r := fold_left (best_step range) rest b in
  (r = b \/ In r rest) /\ nlt (k b) (k r) = false /\
  forall v, In v rest -> nlt (k v) (k r) = false.
Proof.
  cbv zeta. revert b. induction rest as [|x rest IH]; intro b; simpl.
  - split; [left; reflexivity|]. split; [|intros v []].
    destruct (ttk_or_0_fin range b) as [q E]. rewrite E. apply qlt_false, Qle_refl.
  - destruct (IH (best_step range b x)) as [M [B V]].
    set (r := fold_left (best_step range) rest (best_step range b x)) in *.
    destruct (ttk_or_0_fin range b) as [qb Eb]. destruct (ttk_or_0_fin range x) as [qx Ex].
    destruct (ttk_or_0_fin range r) as [qr Er].
    unfold best_step in M, B.
    destruct (nlt (ttk_or_0 (ttk_key range x)) (ttk_or_0 (ttk_key range b))) eqn:L;
      rewrite ?Eb, ?Ex, ?Er in *; simpl in L.
    + apply qlt_true in L. apply qlt_false in B.
      split; [destruct M as [M|M]; [right; left; symmetry; exact M | right; right; exact M]|].
      split; [apply qlt_false; lra|].
      intros v [Hxv | Hv]; [rewrite <- Hxv, Ex; apply qlt_false; exact B | exact (V v Hv)].
    + apply qlt_false in L. apply qlt_false in B.
      split; [destruct M as [M|M]; [left; exact M | right; right; exact M]|].
      split; [apply qlt_false; exact B|].
      intros v [Hxv | Hv]; [rewrite <- Hxv, Ex; apply qlt_false; lra | exact (V v Hv)].
Qed.

(** X15: [getBestWeaponAtRange] is [null] exactly when no weapon has a
    truthy [parseFloat] damage at the range and RPM. Otherwise it returns
    such a weapon of the list whose base TTK is not above that of any
    other such weapon, where a [null] TTK counts as [0] (the [<] of the
    code converts [null] to [0]). *)
Theorem getBestWeaponAtRange_spec (ws : list weapon) (range : string) :
  (getBestWeaponAtRange ws range = None <-> forall w, In w ws -> best_valid range w = false) /\
  forall w, getBestWeaponAtRange ws range = Some w ->
    In w ws /\ best_valid range w = true /\
    forall v, In v ws -> best_valid range v = true ->
      nlt (ttk_or_0 (ttk_key range v)) (ttk_or_0 (ttk_key range w)) = false.
Proof.
  unfold getBestWeaponAtRange.
  destruct (filter (best_valid range) ws) as [|w0 rest] eqn:F.
  - split; [|intros w E; discriminate]. split; [intros _ w Hw | intros _; reflexivity].
    destruct (best_valid range w) eqn:B; [|reflexivity].
    assert (H : In w (filter (best_valid range) ws)) by (apply filter_In; auto).
    rewrite F in H. contradiction.
  - split.
    + split; [discriminate|]. intro H. exfalso.
      assert (H0 : In w0 (filter (best_valid range) ws)) by (rewrite F; left; reflexivity).
      apply filter_In in H0. destruct H0 as [H0 B]. rewrite (H w0 H0) in B. discriminate.
    + intros w E. injection E as <-.
      destruct (fold_best_min range rest w0) as [M [B V]].
      set (r := fold_left (best_step range) rest w0) in *.
      assert (Hr : In r (filter (best_valid range) ws))
        by (rewrite F; destruct M as [M|M]; [left; symmetry; exact M | right; exact M]).
      apply filter_In in Hr. destruct Hr as [Hr1 Hr2].
      split; [exact Hr1 | split; [exact Hr2|]].
      intros v Hv Bv.
      assert (H : In v (filter (best_valid range) ws)) by (apply filter_In; auto).
      rewrite F in H. destruct H as [<- | H]; [exact B | exact (V v H)].
Qed.

(** ** Records built by the normalizer *)

Lemma parseNumeric_not_NaN (v : jsval) (n : num) :
  parseNumeric v = Some n -> nisNaN n = false.
Proof.
  destruct v as [| | b | m | s]; simpl; try discriminate.
  - destruct (nisNaN m) eqn:E; [discriminate|]. intro H; injection H as <-; exact E.
  - destruct s as [|c s]; [discriminate|].
    destruct (nisNaN (parseFloat (String c s))) eqn:E; [discriminate|].
    intro H; injection H as <-; exact E.
Qed.

Lemma filter_nil_iff {A : Type} (f : A -> bool) (l : list A) :
  filter f l = [] <-> forall x, In x l -> f x = false.
Proof.
  induction l as [|y l IH]; simpl.
  - split; [intros _ x []|reflexivity].
  - destruct (f y) eqn:E; split.
    + discriminate.
    + intro H. rewrite (H y (or_introl eq_refl)) in E. discriminate.
    + intros H x [<- | Hx]; [exact E | exact (proj1 IH H x Hx)].
    + intro H. apply IH. intros x Hx. exact (H x (or_intror Hx)).
Qed.

Lemma wget_RANGES (w : weapon) (range : string) :
  In range RANGES -> wget w range = of_opt (wdamage w range).
Proof. intros [<-|[<-|[<-|[<-|[<-|[]]]]]]; reflexivity. Qed.

Lemma getAverageDamage_None (w : weapon) :
  (forall range n, In range RANGES -> wdamage w range = Some n -> nisNaN n = false) ->
  (getAverageDamage w = None <-> forall range, In range RANGES -> wdamage w range = None).
Proof.
  intro NN. unfold getAverageDamage.
  assert (E : forall l : list num,
             match l with [] => None | _ => Some (ndiv (fold_left nadd l (Fin 0)) (nat_num (length l))) end = None
             <-> l = []) by (intros [|x l]; split; congruence).
  rewrite E, filter_nil_iff. split.
  - intros H range Hr.
    assert (H1 := H (js_parseFloat (wget w range)) (in_map _ _ _ Hr)).
    rewrite (wget_RANGES w range Hr) in H1.
    destruct (wdamage w range) as [n|] eqn:D; [|reflexivity].
    simpl in H1. rewrite (NN range n Hr D) in H1. discriminate.
  - intros H x Hx. apply in_map_iff in Hx. destruct Hx as [range [<- Hr]].
    rewrite (wget_RANGES w range Hr), (H range Hr). reflexivity.
Qed.

(** X16: every record [processWeaponData] returns has a non-empty name
    and type; its [TTK_<range>] and [STK_<range>] properties are
    [calculateTTK] and [calculateShotsToKill] of its own damage and RPM;
    [isComplete] and [averageDamage] are [isWeaponDataComplete] and
    [getAverageDamage] of the record itself; no numeric field is [NaN];
    and [averageDamage] is [null] exactly when no damage is known. *)
Theorem processWeaponData_invariant (rows : list row) :
  (length (processWeaponData rows) <= length rows)%nat /\
  forall w, In w (processWeaponData rows) ->
    w_name w <> "" /\ w_type w <> "" /\
    (forall range, In range RANGES ->
       wget w ("TTK_" ++ range) = of_opt (calculateTTK (wdamage w range) (w_RPM w) None) /\
       wget w ("STK_" ++ range) = of_opt (calculateShotsToKill (wdamage w range))) /\
    w_isComplete w = isWeaponDataComplete w /\
    w_averageDamage w = getAverageDamage w /\
    (forall f n, In f [w_10M; w_20M; w_35M; w_50M; w_70M; w_RPM; w_DPS; w_ADS] ->
       f w = Some n -> nisNaN n = false) /\
    (w_averageDamage w = None <-> forall range, In range RANGES -> wdamage w range = None).
Proof.
  unfold processWeaponData. split.
  { rewrite <- (length_map normalize_row rows). apply filter_length_le. }
  intros w Hw. apply filter_In in Hw. destruct Hw as [Hw N].
  apply andb_prop in N. destruct N as [N1 N2].
  unfold nonempty in N1, N2. apply negb_true_iff, String.eqb_neq in N1, N2.
  apply in_map_iff in Hw. destruct Hw as [r [<- _]].
  assert (NN : forall f n, In f [w_10M; w_20M; w_35M; w_50M; w_70M; w_RPM; w_DPS; w_ADS] ->
                 f (normalize_row r) = Some n -> nisNaN n = false).
  { intros f n Hf. destruct Hf as [<-|[<-|[<-|[<-|[<-|[<-|[<-|[<-|[]]]]]]]]];
      apply parseNumeric_not_NaN. }
  assert (AV : w_averageDamage (normalize_row r) = getAverageDamage (normalize_row r))
    by reflexivity.
  split; [exact N1|]. split; [exact N2|]. split.
  { intros range Hr. destruct Hr as [<-|[<-|[<-|[<-|[<-|[]]]]]]; split; reflexivity. }
  split; [reflexivity|]. split; [exact AV|]. split; [exact NN|].
  rewrite AV. apply getAverageDamage_None.
  intros range n Hr. destruct Hr as [<-|[<-|[<-|[<-|[<-|[]]]]]]; simpl;
    apply (NN _ n); simpl; tauto.
Qed.

(** ** Per-type statistics *)

Lemma getWeaponsByType_filter (ws : list weapon) (t : string) :
  getWeaponsByType ws t
  = filter (fun w => String.eqb t "" || String.eqb t "ALL" || String.eqb (w_type w) t) ws.
Proof.
  unfold getWeaponsByType.
  destruct (String.eqb t "" || String.eqb t "ALL"); simpl; [|reflexivity].
  symmetry. apply filter_all.
Qed.

Lemma known_nil_iff {A : Type} (f : A -> option num) (l : list A) :
  known (map f l) = [] <-> forall x, In x l -> f x = None.
Proof.
  induction l as [|y l IH]; simpl.
  - split; [intros _ x []|reflexivity].
  - destruct (f y) eqn:E; split.
    + discriminate.
    + intro H. rewrite (H y (or_introl eq_refl)) in E. discriminate.
    + intros H x [<- | Hx]; [exact E | exact (proj1 IH H x Hx)].
    + intro H. apply IH. intros x Hx. exact (H x (or_intror Hx)).
Qed.

Lemma range_block_key (wl : list weapon) (range : string) :
  map fst (match known (map (fun w => wdamage w range) wl) with
           | [] => []
           | _ => [(range, mkRangeStats (math_min (known (map (fun w => wdamage w range) wl)))
                     (math_max (known (map (fun w => wdamage w range) wl)))
                     (ndiv (fold_left nadd (known (map (fun w => wdamage w range) wl)) (Fin 0))
                           (nat_num (length (known (map (fun w => wdamage w range) wl))))))]
           end)
  = if existsb (fun w => match wdamage w range with Some _ => true | None => false end) wl
    then [range] else [].
Proof.
  destruct (existsb (fun w => match wdamage w range with Some _ => true | None => false end) wl) eqn:Ex.
  - apply existsb_exists in Ex. destruct Ex as [w [Hw S]].
    destruct (known (map (fun w => wdamage w range) wl)) eqn:K; [|reflexivity].
    apply known_nil_iff with (x := w) in K; [|exact Hw]. rewrite K in S. discriminate.
  - destruct (known (map (fun w => wdamage w range) wl)) eqn:K; [reflexivity|].
    exfalso. assert (N : known (map (fun w => wdamage w range) wl) = []).
    { apply known_nil_iff. intros w Hw.
      destruct (wdamage w range) eqn:D; [|reflexivity].
      assert (C : existsb (fun w => match wdamage w range with Some _ => true | None => false end) wl = true)
        by (apply existsb_exists; exists w; rewrite D; auto).
      congruence. }
    congruence.
Qed.

Lemma existsb_filter {A : Type} (P Q : A -> bool) (l : list A) :
  existsb Q (filter P l) = existsb (fun x => P x && Q x) l.
Proof.
  induction l as [|x l IH]; simpl; [reflexivity|].
  destruct (P x); simpl; rewrite IH; reflexivity.
Qed.

(** X17: with [sel] the weapons [getWeaponsByType] keeps (all of them
    for [''] and ['ALL'], otherwise those of that type),
    [getWeaponTypeStats] is [null] exactly when no weapon is selected;
    otherwise [count] is the number of selected weapons, [complete] the
    number of selected complete ones (at most [count]), and a range block
    is present, in [RANGES] order, exactly for the ranges where some
    selected weapon has a known damage. *)
Theorem getWeaponTypeStats_spec (ws : list weapon) (t : string) :
  let sel := fun w => String.eqb t "" || String.eqb t "ALL" || String.eqb (w_type w) t in
  (getWeaponTypeStats ws t = None <-> forall w, In w ws -> sel w = false) /\
  forall s, getWeaponTypeStats ws t = Some s ->
    ts_count s = length (filter sel ws) /\
    ts_complete s = length (filter (fun w => sel w && isWeaponDataComplete w) ws) /\
    (ts_complete s <= ts_count s)%nat /\
    map fst (ts_ranges s)
    = filter (fun range => existsb (fun w => sel w && match wdamage w range with Some _ => true | None => false end) ws) RANGES.
Proof.
  intro sel. unfold getWeaponTypeStats. rewrite getWeaponsByType_filter. fold sel.
  destruct (filter sel ws) as [|w0 l] eqn:F.
  - split; [split; [intros _; apply filter_nil_iff; exact F | reflexivity]|].
    intros s E; discriminate.
  - split.
    + split; [discriminate|]. intro H. apply filter_nil_iff in H. congruence.
    + intros s E. rewrite <- F in E |- *. injection E as <-. cbn [ts_count ts_complete ts_ranges].
      rewrite filter_filter_and. split; [reflexivity|]. split; [reflexivity|].
      split.
      * rewrite <- filter_filter_and. apply filter_length_le.
      * rewrite !map_app, !range_block_key, !existsb_filter. unfold RANGES. cbn [filter].
        repeat match goal with |- context [if ?c then _ else _] => destruct c end;
          reflexivity.
Qed.

Lemma nmin2_nonNaN (a b : num) :
  nisNaN a = false -> nisNaN b = false -> nmin2 a b = if nlt b a then b else a.
Proof. destruct a, b; simpl; congruence. Qed.

Lemma nmax2_nonNaN (a b : num) :
  nisNaN a = false -> nisNaN b = false -> nmax2 a b = if nlt a b then b else a.
Proof. destruct a, b; simpl; congruence. Qed.

Lemma nlt_irrefl (a : num) : nlt a a = false.
Proof. destruct a; simpl; try reflexivity. apply qlt_false, Qle_refl. Qed.

Lemma fold_nmin2_spec (l : list num) (acc : num) :
  nisNaN acc = false -> (forall x, In x l -> nisNaN x = false) ->
  let r := fold_left nmin2 l acc in
  (r = acc \/ In r l) /\ nlt acc r = false /\ forall x, In x l -> nlt x r = false.
Proof.
  cbv zeta. revert acc. induction l as [|x l IH]; intros acc Ha Hl; simpl.
  - split; [left; reflexivity|]. split; [apply nlt_irrefl | intros x []].
  - assert (Hx : nisNaN x = false) by (apply Hl; left; reflexivity).
    rewrite (nmin2_nonNaN acc x Ha Hx).
    destruct (nlt x acc) eqn:L.
    + destruct (IH x Hx (fun y Hy => Hl y (or_intror Hy))) as [M [B V]].
      split; [destruct M as [M|M]; [right; left; symmetry; exact M | right; right; exact M]|].
      split; [apply (nlt_false_trans _ x); [exact Hx | exact B | apply nlt_asym; exact L]|].
      intros y [<- | Hy]; [exact B | exact (V y Hy)].
    + destruct (IH acc Ha (fun y Hy => Hl y (or_intror Hy))) as [M [B V]].
      split; [destruct M as [M|M]; [left; exact M | right; right; exact M]|].
      split; [exact B|].
      intros y [<- | Hy]; [apply (nlt_false_trans _ acc); [exact Ha | exact B | exact L] | exact (V y Hy)].
Qed.

Lemma fold_nmax2_spec (l : list num) (acc : num) :
  nisNaN acc = false -> (forall x, In x l -> nisNaN x = false) ->
  let r := fold_left nmax2 l acc in
  (r = acc \/ In r l) /\ nlt r acc = false /\ forall x, In x l -> nlt r x = false.
Proof.
  cbv zeta. revert acc. induction l as [|x l IH]; intros acc Ha Hl; simpl.
  - split; [left; reflexivity|]. split; [apply nlt_irrefl | intros x []].
  - assert (Hx : nisNaN x = false) by (apply Hl; left; reflexivity).
    rewrite (nmax2_nonNaN acc x Ha Hx).
    destruct (nlt acc x) eqn:L.
    + destruct (IH x Hx (fun y Hy => Hl y (or_intror Hy))) as [M [B V]].
      split; [destruct M as [M|M]; [right; left; symmetry; exact M | right; right; exact M]|].
      split; [apply (nlt_false_trans _ x); [exact Hx | apply nlt_asym; exact L | exact B]|].
      intros y [<- | Hy]; [exact B | exact (V y Hy)].
    + destruct (IH acc Ha (fun y Hy => Hl y (or_intror Hy))) as [M [B V]].
      split; [destruct M as [M|M]; [left; exact M | right; right; exact M]|].
      split; [exact B|].
      intros y [<- | Hy]; [apply (nlt_false_trans _ acc); [exact Ha | exact L | exact B] | exact (V y Hy)].
Qed.

Lemma math_min_spec (l : list num) :
  l <> [] -> (forall x, In x l -> nisNaN x = false) ->
  In (math_min l) l /\ forall x, In x l -> nlt x (math_min l) = false.
Proof.
  intros Ne Hl. unfold math_min.
  destruct (fold_nmin2_spec l PInf eq_refl Hl) as [M [_ V]].
  split; [|exact V].
  destruct M as [M|M]; [|exact M].
  destruct l as [|x l]; [congruence|].
  assert (Vx := V x (or_introl eq_refl)). rewrite M in Vx |- *.
  assert (Hx := Hl x (or_introl eq_refl)).
  destruct x; simpl in Vx, Hx; try discriminate; left; reflexivity.
Qed.

Lemma math_max_spec (l : list num) :
  l <> [] -> (forall x, In x l -> nisNaN x = false) ->
  In (math_max l) l /\ forall x, In x l -> nlt (math_max l) x = false.
Proof.
  intros Ne Hl. unfold math_max.
  destruct (fold_nmax2_spec l NInf eq_refl Hl) as [M [_ V]].
  split; [|exact V].
  destruct M as [M|M]; [|exact M].
  destruct l as [|x l]; [congruence|].
  assert (Vx := V x (or_introl eq_refl)). rewrite M in Vx |- *.
  assert (Hx := Hl x (or_introl eq_refl)).
  destruct x; simpl in Vx, Hx; try discriminate; left; reflexivity.
Qed.

Lemma known_In {A : Type} (f : A -> option num) (l : list A) (n : num) :
  In n (known (map f l)) <-> exists x, In x l /\ f x = Some n.
Proof.
  induction l as [|y l IH]; simpl.
  - split; [intros []|intros [x [[] _]]].
  - destruct (f y) as [m|] eqn:E; simpl; rewrite IH; split.
    + intros [<- | [x [Hx Fx]]]; [exists y; auto | exists x; auto].
    + intros [x [[<- | Hx] Fx]]; [left; congruence | right; exists x; auto].
    + intros [x [Hx Fx]]; exists x; auto.
    + intros [x [[<- | Hx] Fx]]; [congruence | exists x; auto].
Qed.

Lemma ts_ranges_Some (ws : list weapon) (t : string) (s : type_stats) :
  getWeaponTypeStats ws t = Some s ->
  ts_ranges s = flat_map (fun range =>
      let damages := known (map (fun w => wdamage w range) (getWeaponsByType ws t)) in
      match damages with
      | [] => []
      | _ => [(range, mkRangeStats (math_min damages) (math_max damages)
                        (ndiv (fold_left nadd damages (Fin 0)) (nat_num (length damages))))]
      end) RANGES.
Proof.
  unfold getWeaponTypeStats. destruct (getWeaponsByType ws t) as [|w0 l]; [discriminate|].
  intro E. injection E as <-. reflexivity.
Qed.

Lemma processed_damage_not_NaN (rows : list row) (w : weapon) (range : string) (n : num) :
  In w (processWeaponData rows) -> wdamage w range = Some n -> nisNaN n = false.
Proof.
  unfold processWeaponData. intro Hw. apply filter_In in Hw. destruct Hw as [Hw _].
  apply in_map_iff in Hw. destruct Hw as [r [<- _]].
  unfold wdamage.
  repeat match goal with |- context [if ?c then _ else _] => destruct c end;
    try discriminate; apply parseNumeric_not_NaN.
Qed.

(** X18: on the records of [processWeaponData], every per-range block
    of [getWeaponTypeStats] has as [minDamage] and [maxDamage] the known
    damage of a selected weapon at that range, and every known damage of
    a selected weapon at that range lies between them. *)
Theorem getWeaponTypeStats_range_bounds (rows : list row) (t range : string)
    (s : type_stats) (rs : range_stats) :
  getWeaponTypeStats (processWeaponData rows) t = Some s ->
  In (range, rs) (ts_ranges s) ->
  let sel := fun w => String.eqb t "" || String.eqb t "ALL" || String.eqb (w_type w) t in
  (exists w, In w (processWeaponData rows) /\ sel w = true /\ wdamage w range = Some (minDamage rs)) /\
  (exists w, In w (processWeaponData rows) /\ sel w = true /\ wdamage w range = Some (maxDamage rs)) /\
  forall w n, In w (processWeaponData rows) -> sel w = true -> wdamage w range = Some n ->
    nlt n (minDamage rs) = false /\ nlt (maxDamage rs) n = false.
Proof.
  intros E Hr sel.
  rewrite (ts_ranges_Some _ _ _ E) in Hr. apply in_flat_map in Hr.
  destruct Hr as [r [_ Hr]]. cbv zeta in Hr.
  set (wl := getWeaponsByType (processWeaponData rows) t) in Hr.
  assert (Wl : forall w, In w wl <-> In w (processWeaponData rows) /\ sel w = true)
    by (intro w; unfold wl; rewrite getWeaponsByType_filter; apply filter_In).
  assert (NN : forall x, In x (known (map (fun w => wdamage w range) wl)) -> nisNaN x = false).
  { intros x Hx. apply known_In in Hx. destruct Hx as [w [Hw D]].
    apply Wl in Hw. exact (processed_damage_not_NaN rows w range x (proj1 Hw) D). }
  destruct (known (map (fun w => wdamage w r) wl)) as [|d ds] eqn:K; [destruct Hr|].
  destruct Hr as [Hr | []]. injection Hr as -> <-. cbn [minDamage maxDamage].
  rewrite <- K.
  assert (Ne : known (map (fun w => wdamage w range) wl) <> []) by congruence.
  destruct (math_min_spec _ Ne NN) as [Mi Vi].
  destruct (math_max_spec _ Ne NN) as [Ma Va].
  split; [|split].
  - apply known_In in Mi. destruct Mi as [w [Hw D]]. apply Wl in Hw.
    exists w. tauto.
  - apply known_In in Ma. destruct Ma as [w [Hw D]]. apply Wl in Hw.
    exists w. tauto.
  - intros w n Hw Sw D.
    assert (Hn : In n (known (map (fun w => wdamage w range) wl)))
      by (apply known_In; exists w; split; [apply Wl; auto | exact D]).
    split; [apply Vi | apply Va]; exact Hn.
Qed.

Lemma getWeaponTypeStats_range_bounds_witness :
  exists s rs, getWeaponTypeStats sample_weapons "SMG" = Some s /\ In ("10M", rs) (ts_ranges s) /\
  let sel := fun w => String.eqb "SMG" "" || String.eqb "SMG" "ALL" || String.eqb (w_type w) "SMG" in
  (exists w, In w sample_weapons /\ sel w = true /\ wdamage w "10M" = Some (minDamage rs)) /\
  (exists w, In w sample_weapons /\ sel w = true /\ wdamage w "10M" = Some (maxDamage rs)) /\
  forall w n, In w sample_weapons -> sel w = true -> wdamage w "10M" = Some n ->
    nlt n (minDamage rs) = false /\ nlt (maxDamage rs) n = false.
Proof.
  destruct (getWeaponTypeStats sample_weapons "SMG") as [s|] eqn:E;
    [|vm_compute in E; discriminate].
  assert (E' := E). vm_compute in E'. injection E' as Hs. subst s.
  eexists. eexists. split; [exact E|]. split; [simpl; left; reflexivity|].
  unfold sample_weapons in E |- *.
  eapply getWeaponTypeStats_range_bounds; [exact E | simpl; left; reflexivity].
Defined.

(** ** Lookup by name and comparison *)

Lemma getWeaponByName_cases (ws : list weapon) (name : string) :
  (getWeaponByName ws name = None <-> forall w, In w ws -> w_name w <> name) /\
  forall w, getWeaponByName ws name = Some w -> In w ws /\ w_name w = name.
Proof.
  unfold getWeaponByName. split.
  - split.
    + intros N w Hw E. apply (find_none _ _ N) in Hw. apply String.eqb_neq in Hw. contradiction.
    + induction ws as [|x ws IH]; intro H; simpl; [reflexivity|].
      destruct (String.eqb (w_name x) name) eqn:E.
      * apply String.eqb_eq in E. exfalso. exact (H x (or_introl eq_refl) E).
      * apply IH. intros w Hw. exact (H w (or_intror Hw)).
  - intros w F. apply find_some in F. destruct F as [Hw E].
    apply String.eqb_eq in E. auto.
Qed.

Lemma processed_record (rows : list row) (w : weapon) :
  In w (processWeaponData rows) ->
  w_name w <> "" /\ w_type w <> "" /\
  forall range, In range RANGES ->
    wget w ("TTK_" ++ range) = of_opt (calculateTTK (wdamage w range) (w_RPM w) None) /\
    wget w ("STK_" ++ range) = of_opt (calculateShotsToKill (wdamage w range)).
Proof.
  unfold processWeaponData. intro Hw. apply filter_In in Hw. destruct Hw as [Hw N].
  apply andb_prop in N. destruct N as [N1 N2].
  unfold nonempty in N1, N2. apply negb_true_iff, String.eqb_neq in N1, N2.
  apply in_map_iff in Hw. destruct Hw as [r [<- _]].
  split; [exact N1|]. split; [exact N2|].
  intros range Hr. destruct Hr as [<-|[<-|[<-|[<-|[<-|[]]]]]]; split; reflexivity.
Qed.

(** X19: on the records of [processWeaponData], [compareWeapons] is
    [null] exactly when one of the two names is the name of no record (so
    always for an empty name). Otherwise it compares the first records of
    those names: its [weapons] pair is the two names, its [ranges] cover
    [RANGES] in order, and each range entry holds the two damages and the
    [calculateTTK] and [calculateShotsToKill] values of those damages with
    each record's RPM. *)
Theorem compareWeapons_spec (rows : list row) (n1 n2 : string) :
  let ws := processWeaponData rows in
  (compareWeapons ws n1 n2 = None <->
     (forall w, In w ws -> w_name w <> n1) \/ (forall w, In w ws -> w_name w <> n2)) /\
  compareWeapons ws "" n2 = None /\ compareWeapons ws n1 "" = None /\
  forall c, compareWeapons ws n1 n2 = Some c ->
    cmp_weapons c = (n1, n2) /\ map fst (cmp_ranges c) = RANGES /\
    exists w1 w2,
      getWeaponByName ws n1 = Some w1 /\ getWeaponByName ws n2 = Some w2 /\
      forall range rc, In (range, rc) (cmp_ranges c) ->
        rc_damage rc = (of_opt (wdamage w1 range), of_opt (wdamage w2 range)) /\
        rc_ttk rc = (of_opt (calculateTTK (wdamage w1 range) (w_RPM w1) None),
                     of_opt (calculateTTK (wdamage w2 range) (w_RPM w2) None)) /\
        rc_stk rc = (of_opt (calculateShotsToKill (wdamage w1 range)),
                     of_opt (calculateShotsToKill (wdamage w2 range))).
Proof.
  intro ws.
  assert (Empty : forall w, In w ws -> w_name w <> "")
    by (intros w Hw; exact (proj1 (processed_record rows w Hw))).
  unfold compareWeapons.
  destruct (getWeaponByName_cases ws n1) as [N1 S1].
  destruct (getWeaponByName_cases ws n2) as [N2 S2].
  destruct (getWeaponByName_cases ws "") as [N0 _].
  assert (E0 : getWeaponByName ws "" = None) by (apply N0; exact Empty).
  rewrite E0. split; [|split; [reflexivity|split; [destruct (getWeaponByName ws n1); reflexivity|]]].
  - destruct (getWeaponByName ws n1) as [w1|] eqn:G1.
    + destruct (getWeaponByName ws n2) as [w2|] eqn:G2.
      * split; [discriminate|].
        destruct (S1 w1 eq_refl) as [H1 E1]. destruct (S2 w2 eq_refl) as [H2 E2].
        intros [H|H]; [exact (False_ind _ (H w1 H1 E1)) | exact (False_ind _ (H w2 H2 E2))].
      * split; [intros _; right; apply N2; reflexivity | reflexivity].
    + split; [intros _; left; apply N1; reflexivity | reflexivity].
  - destruct (getWeaponByName ws n1) as [w1|] eqn:G1; [|discriminate].
    destruct (getWeaponByName ws n2) as [w2|] eqn:G2; [|discriminate].
    intros c E. injection E as <-.
    destruct (S1 w1 eq_refl) as [H1 E1]. destruct (S2 w2 eq_refl) as [H2 E2].
    cbn [cmp_weapons cmp_ranges]. rewrite E1, E2.
    split; [reflexivity|]. split; [reflexivity|].
    exists w1, w2. split; [reflexivity|]. split; [reflexivity|].
    assert (G : forall r, In r RANGES ->
      (wget w1 r, wget w2 r) = (of_opt (wdamage w1 r), of_opt (wdamage w2 r)) /\
      (wget w1 ("TTK_" ++ r), wget w2 ("TTK_" ++ r))
      = (of_opt (calculateTTK (wdamage w1 r) (w_RPM w1) None),
         of_opt (calculateTTK (wdamage w2 r) (w_RPM w2) None)) /\
      (wget w1 ("STK_" ++ r), wget w2 ("STK_" ++ r))
      = (of_opt (calculateShotsToKill (wdamage w1 r)),
         of_opt (calculateShotsToKill (wdamage w2 r)))).
    { intros r Hr.
      destruct (processed_record rows w1 H1) as [_ [_ P1]].
      destruct (processed_record rows w2 H2) as [_ [_ P2]].
      destruct (P1 r Hr) as [T1 K1]. destruct (P2 r Hr) as [T2 K2].
      rewrite T1, K1, T2, K2, !(wget_RANGES _ _ Hr). auto. }
    intros range rc Hin.
    destruct Hin as [E|[E|[E|[E|[E|[]]]]]]; injection E as <- <-;
      cbn [rc_damage rc_ttk rc_stk]; apply G; simpl; tauto.
Qed.

(** * The calculator in binary64 arithmetic

    Facts about the comparisons of primitive floats, [Math.max],
    [Math.min] and the argument guard, then the properties of the
    specification stated on the [F64] model. *)

Import PrimFloat SpecFloat FloatOps FloatAxioms.
#[local] Set Warnings "-inexact-float".
Local Open Scope float_scope.








Lemma eqb_leb (x y : float) : (x =? y) = true -> (x <=? y) = true.
Proof.
  rewrite eqb_spec, leb_spec. unfold SFeqb, SFleb.
  destruct (SFcompare _ _) as [[]|]; congruence.
Qed.












Lemma bad_arg (x : float) :
  negb (F64.truthy x) || (x <=? 0) = is_nan x || (x <=? 0).
Proof.
  unfold F64.truthy. destruct (is_nan x); [reflexivity|]. simpl.
  destruct (x =? 0) eqn:Z; [rewrite (eqb_leb _ _ Z)|]; reflexivity.
Qed.

Lemma bad_arg_iff (x : float) :
  F64.unknown_or_nonpos (Some x) <-> (negb (F64.truthy x) || (x <=? 0)) = true.
Proof. rewrite bad_arg, Bool.orb_true_iff. reflexivity. Qed.

Lemma ttk_guard_None_iff (d r : option float) :
  F64.ttk_guard d r = None <-> F64.unknown_or_nonpos d \/ F64.unknown_or_nonpos r.
Proof.
  destruct d as [d|], r as [r|]; simpl; [| split; auto ..].
  rewrite (bad_arg_iff d), (bad_arg_iff r).
  destruct (F64.truthy d), (F64.truthy r), (d <=? 0), (r <=? 0); simpl;
    split; intro H; auto; try discriminate; destruct H; discriminate.
Qed.

Lemma ttk_guard_Some_f64 (d r : float) :
  ~ F64.unknown_or_nonpos (Some d) -> ~ F64.unknown_or_nonpos (Some r) ->
  F64.ttk_guard (Some d) (Some r) = Some (d, r).
Proof.
  intros Hd Hr. destruct (F64.ttk_guard (Some d) (Some r)) eqn:G.
  - revert G. simpl. destruct (_ || _); congruence.
  - apply ttk_guard_None_iff in G. tauto.
Qed.


Lemma zero_floor_nonzero_f64 (x : float) : (F64.zero_floor x =? 0) = false.
Proof. unfold F64.zero_floor. destruct (x =? 0) eqn:E; [reflexivity | exact E]. Qed.




Lemma immune_is_base_f64 (wt : string) :
  ci_eq wt "Sniper Rifle" = true \/ ci_eq wt "Shotgun" = true -> is_immune_type wt = true.
Proof. rewrite ci_immune. intros [H|H]; rewrite H; [reflexivity | apply Bool.orb_true_r]. Qed.


Lemma add_zero_cases (y : float) : y + 0 = y \/ y = -0.
Proof.
  destruct (Prim2SF y) as [[]|s| |s m e] eqn:E.
  - right. apply Prim2SF_inj. rewrite E. reflexivity.
  - left. apply Prim2SF_inj. rewrite add_spec, E. reflexivity.
  - left. apply Prim2SF_inj. rewrite add_spec, E. reflexivity.
  - left. apply Prim2SF_inj. rewrite add_spec, E. reflexivity.
  - left. apply Prim2SF_inj. rewrite add_spec, E. reflexivity.
Qed.

Lemma zero_floor_round1_add0 (y : float) :
  F64.zero_floor (F64.round1 (y + 0)) = F64.zero_floor (F64.round1 y).
Proof. destruct (add_zero_cases y) as [E|E]; rewrite E; reflexivity. Qed.

(** C1: [calculateTTK(d, r, adsTime)] is [null] exactly when [d] or [r]
    is [null], [undefined], [NaN] or [<= 0]. Otherwise it is
    [(ceil(100/d) - 1) * (60000/r) + adsTime] evaluated in binary64
    arithmetic and rounded by [Math.round(x * 10) / 10], with [1] in place
    of a rounded value equal to [0] and only then; a defined result is
    never [0]. *)
Theorem calculateTTK_spec :
  (forall d r a, F64.calculateTTK d r a = None <->
                 F64.unknown_or_nonpos d \/ F64.unknown_or_nonpos r) /\
  (forall d r a, ~ F64.unknown_or_nonpos (Some d) -> ~ F64.unknown_or_nonpos (Some r) ->
     F64.calculateTTK (Some d) (Some r) a
     = Some (let v := F64.round1 ((F64.math_ceil (100 / d) - 1) * (60000 / r) + F64.ads_or_zero a) in
             if v =? 0 then 1 else v)) /\
  (forall d r a v, F64.calculateTTK d r a = Some v -> (v =? 0) = false).
Proof.
  split; [|split].
  - intros d r a. rewrite <- ttk_guard_None_iff. unfold F64.calculateTTK.
    destruct (F64.ttk_guard d r) as [[]|]; split; congruence.
  - intros d r a Hd Hr. unfold F64.calculateTTK. rewrite ttk_guard_Some_f64 by assumption.
    reflexivity.
  - intros d r a v. unfold F64.calculateTTK.
    destruct (F64.ttk_guard d r) as [[]|]; intro E; [|discriminate].
    injection E as <-. apply zero_floor_nonzero_f64.
Qed.

(** C1: the result is not always at least [1] ([0.1] for damage 50 at
    1200000 RPM); it is the double evaluation, not the exact formula
    rounded to one decimal ([468.7] for 13 and 896, where the exact value
    [468.75] rounds to [468.8]); and it can be [NaN] (damage 100 at
    [1e-305] RPM: [0 * Infinity]). *)
Lemma calculateTTK_counterexamples :
  F64.calculateTTK (Some 50) (Some 1200000) None = Some 0.1 /\ (0.1 <? 1) = true /\
  F64.calculateTTK (Some 13) (Some 896) None = Some 468.7 /\
  zero_floorQ (round1Q (ttk_formula 13 896 0)) == 4688 # 10 /\
  option_map is_nan (F64.calculateTTK (Some 100) (Some 1e-305) None) = Some true.
Proof. vm_compute. repeat split; reflexivity. Qed.

(** C3: for a weapon type equal to ["Sniper Rifle"] or ["Shotgun"] up to
    case, [calculateRecoilAdjustedTTK] ignores ADS time, precision, control
    and range and gives what [calculateTTK] gives without ADS time: [null]
    on bad arguments, otherwise [(ceil(100/d) - 1) * (60000/r)] in binary64
    arithmetic, rounded to one decimal, with the zero floor. For damage 75
    and 40 RPM both give [1500]. *)
Theorem immune_recoil_ttk (precision control : float) (range wt : string) :
  ci_eq wt "Sniper Rifle" = true \/ ci_eq wt "Shotgun" = true ->
  (forall d r, F64.calculateRecoilAdjustedTTK d r precision control range wt
               = F64.calculateTTK d r None) /\
  (forall d r, ~ F64.unknown_or_nonpos (Some d) -> ~ F64.unknown_or_nonpos (Some r) ->
     F64.calculateRecoilAdjustedTTK (Some d) (Some r) precision control range wt
     = Some (F64.zero_floor (F64.round1 ((F64.math_ceil (100 / d) - 1) * (60000 / r))))) /\
  F64.calculateRecoilAdjustedTTK (Some 75) (Some 40) precision control range wt = Some 1500 /\
  F64.calculateTTK (Some 75) (Some 40) None = Some 1500.
Proof.
  intro Hw. apply immune_is_base_f64 in Hw.
  assert (Base : forall d r, F64.calculateRecoilAdjustedTTK d r precision control range wt
                             = F64.calculateTTK d r None).
  { intros d r. unfold F64.calculateRecoilAdjustedTTK, F64.calculateTTK.
    destruct (F64.ttk_guard d r) as [[d' r']|]; [|reflexivity].
    rewrite Hw. cbv zeta. f_equal. symmetry. apply zero_floor_round1_add0. }
  split; [exact Base | split; [|split]].
  - intros d r Hd Hr. unfold F64.calculateRecoilAdjustedTTK.
    rewrite ttk_guard_Some_f64 by assumption. rewrite Hw. reflexivity.
  - rewrite Base. vm_compute. reflexivity.
  - vm_compute. reflexivity.
Qed.

(** C3: a lower-case ["sniper rifle"] at [70M] with precision and control
    10 keeps the hip-fire TTK [1500]. *)
Lemma immune_recoil_ttk_witness :
  (ci_eq "sniper rifle" "Sniper Rifle" = true \/ ci_eq "sniper rifle" "Shotgun" = true) /\
  F64.calculateRecoilAdjustedTTK (Some 75) (Some 40) 10 10 "70M" "sniper rifle" = Some 1500.
Proof.
  split; [left; reflexivity|].
  exact (proj1 (proj2 (proj2 (immune_recoil_ttk 10 10 "70M" "sniper rifle" (or_introl eq_refl))))).
Defined.

(** C3: the immune TTK is the double evaluation: [468.7] for damage 13 at
    896 RPM, where the exact formula rounds to [468.8]. *)
Lemma immune_recoil_double_rounding :
  F64.calculateRecoilAdjustedTTK (Some 13) (Some 896) 100 100 "10M" "Shotgun" = Some 468.7 /\
  zero_floorQ (round1Q (ttk_formula 13 896 0)) == 4688 # 10.
Proof. vm_compute. split; reflexivity. Qed.




(** C5: a record with damage [0] (TTK [null]) and a record with damage
    [5e-324] (TTK [Infinity]), both at 600 RPM, sorted by [ttk] at [10M]:
    both keys become [Infinity], the comparator gives
    [Infinity - Infinity = NaN], and the stable sort keeps the record
    with the undefined TTK before the one with a defined TTK. *)
Lemma sortWeapons_null_before_defined :
  F64.ttk_value "10M" F64.zero_damage = None /\
  F64.ttk_value "10M" F64.tiny_damage = Some infinity /\
  is_nan (F64.compare_weapons "ttk" "10M" F64.tiny_damage F64.zero_damage) = true /\
  F64.sortWeapons [F64.zero_damage; F64.tiny_damage] "ttk" "10M"
  = [F64.zero_damage; F64.tiny_damage].
Proof. vm_compute. repeat split; reflexivity. Qed.

(** C9: the total is the number of records, the complete count is the
    number of complete records, and the coverage is
    [Math.round((complete / total) * 100)] in binary64 arithmetic when
    there is a record and [0] otherwise; the statistics of no records are
    all [0], with no [NaN]. *)
Theorem getWeaponStatistics_coverage :
  (forall ws,
     F64.st_total (F64.getWeaponStatistics ws) = length ws /\
     F64.st_complete (F64.getWeaponStatistics ws) = length (filter isWeaponDataComplete ws) /\
     F64.st_coverage (F64.getWeaponStatistics ws)
     = (if (0 <? length ws)%nat
        then F64.math_round (F64.of_nat (length (filter isWeaponDataComplete ws))
                             / F64.of_nat (length ws) * 100)
        else 0)) /\
  F64.getWeaponStatistics [] = F64.mkStatistics 0 0 0 0 [] 0.
Proof. split; [intro ws; repeat split | reflexivity]. Qed.

(** C9: 23 complete records of 40 have coverage [57]: [23 / 40 * 100] is
    [57.49999999999999] in binary64, while the exact [57.5] rounds to
    [58]. *)
Lemma coverage_23_of_40 :
  let ws := (List.repeat (nth 2 sample_weapons no_weapon) 23 ++ List.repeat (nth 1 sample_weapons no_weapon) 17)%list in
  F64.st_total (F64.getWeaponStatistics ws) = 40%nat /\
  F64.st_complete (F64.getWeaponStatistics ws) = 23%nat /\
  F64.st_coverage (F64.getWeaponStatistics ws) = 57 /\
  Qfloor ((23 # 40) * 100 + (1 # 2))%Q = 58%Z.
Proof. vm_compute. repeat split; reflexivity. Qed.


